(** * GraphFilters: the filter synchroniser of [src/main.ts]

    A shallow embedding of the plugin class [GraphFiltersPlugin]: the
    string primitives it relies on ([String.prototype.trim], [split],
    [Array.prototype.join], [JSON.stringify] on arrays of strings), the
    plugin's fields together with the part of the host document it
    touches, and each of its methods as a function on that state. *)

From Stdlib Require Import NArith ZArith Ascii String List Lia.
From stdpp Require Import base option list gmap strings.

Local Open Scope N_scope.

(** ** JavaScript strings

    A JavaScript string is a sequence of UTF-16 code units. *)

Abbreviation jsstr := (list N).

(** The code units of an ASCII literal of the source. *)
Definition u16 (s : string) : jsstr :=
  map N_of_ascii (list_ascii_of_string s).

(** [WhiteSpace] and [LineTerminator] code points of ECMAScript, the
    characters [trim] strips. *)
Definition is_ws (c : N) : bool :=
  ((9 <=? c) && (c <=? 13)) || (c =? 32) || (c =? 160) || (c =? 5760)
  || ((8192 <=? c) && (c <=? 8202)) || (c =? 8232) || (c =? 8233)
  || (c =? 8239) || (c =? 8287) || (c =? 12288) || (c =? 65279).

Fixpoint trimStart (s : jsstr) : jsstr :=
  match s with
  | c :: s' => if is_ws c then trimStart s' else s
  | [] => []
  end.

Definition trimEnd (s : jsstr) : jsstr := rev (trimStart (rev s)).

(** [s.trim()] *)
Definition trim (s : jsstr) : jsstr := trimEnd (trimStart s).

(** [s.startsWith(p)] *)
Fixpoint startsWith (p s : jsstr) : bool :=
  match p, s with
  | [], _ => true
  | _ :: _, [] => false
  | a :: p', b :: s' => (a =? b) && startsWith p' s'
  end.

(** [s.endsWith(p)] *)
Definition endsWith (p s : jsstr) : bool := startsWith (rev p) (rev s).

(** [s.indexOf(p)]: the position of the leftmost occurrence, [None] for
    JavaScript's [-1]. *)
Fixpoint indexOf (p s : jsstr) : option nat :=
  if startsWith p s then Some 0%nat
  else match s with
       | [] => None
       | _ :: s' => S <$> indexOf p s'
       end.

(** [s.includes(p)] *)
Definition includes (p s : jsstr) : bool :=
  match indexOf p s with Some _ => true | None => false end.

(** [s.split(sep)] for a non-empty separator: cut at the leftmost
    occurrence, resume the search right after it.  Every cut consumes at
    least one code unit, so [length s] rounds are enough. *)
Fixpoint split_rounds (n : nat) (sep s : jsstr) : list jsstr :=
  match indexOf sep s with
  | None => [s]
  | Some j =>
      match n with
      | O => [s]
      | S n' => take j s :: split_rounds n' sep (drop (j + length sep) s)
      end
  end.

Definition split (sep s : jsstr) : list jsstr :=
  split_rounds (length s) sep s.

(** [l.join(sep)] *)
Fixpoint join (sep : jsstr) (l : list jsstr) : jsstr :=
  match l with
  | [] => []
  | [x] => x
  | x :: l' => x ++ sep ++ join sep l'
  end.

(** The separator of the derived query text (lines 91, 121 and 199). *)
Definition delimiter : jsstr := u16 "   AND   ".

(** [v.split('   AND   ').map(f => f.trim()).filter(f => f.length > 0)]
    (lines 90-93 and 121-123). *)
Definition parseFilters (v : jsstr) : list jsstr :=
  List.filter (fun f => (0 <? length f)%nat) (map trim (split delimiter v)).

(** [this.settings.filters.join('   AND   ')] (line 199). *)
Definition combinedQuery (fs : list jsstr) : jsstr := join delimiter fs.

(** ** [JSON.stringify] on an array of strings

    Lines 96 and 126 compare two filter lists through their JSON texts.
    [QuoteJSONString] walks the code points of the string: a surrogate
    pair is copied, a lone surrogate or a control character is escaped. *)

Definition is_lead (c : N) : bool := (55296 <=? c) && (c <=? 56319).
Definition is_trail (c : N) : bool := (56320 <=? c) && (c <=? 57343).

Inductive codepoint :=
  | Unit (c : N)
  | Pair (hi lo : N).

Fixpoint StringToCodePoints (s : jsstr) : list codepoint :=
  match s with
  | [] => []
  | c :: s' =>
      match s' with
      | d :: s'' =>
          if is_lead c && is_trail d
          then Pair c d :: StringToCodePoints s''
          else Unit c :: StringToCodePoints s'
      | [] => [Unit c]
      end
  end.

Definition hexdigit (d : N) : N := if d <? 10 then 48 + d else 87 + d.

(** [UnicodeEscape]: a backslash, [u] and four lower-case hex digits. *)
Definition UnicodeEscape (c : N) : jsstr :=
  [92; 117; hexdigit ((c / 4096) mod 16); hexdigit ((c / 256) mod 16);
   hexdigit ((c / 16) mod 16); hexdigit (c mod 16)].

(** The single-character escapes of [QuoteJSONString]: backspace, tab,
    line feed, form feed, carriage return, double quote and backslash
    become a backslash followed by b, t, n, f, r, a double quote or a
    backslash. *)
Definition escape_char (c : N) : option N :=
  if c =? 8 then Some 98
  else if c =? 9 then Some 116
  else if c =? 10 then Some 110
  else if c =? 12 then Some 102
  else if c =? 13 then Some 114
  else if c =? 34 then Some 34
  else if c =? 92 then Some 92
  else None.

Definition quote_codepoint (p : codepoint) : jsstr :=
  match p with
  | Pair hi lo => [hi; lo]
  | Unit c =>
      match escape_char c with
      | Some x => [92; x]
      | None =>
          if (c <? 32) || is_lead c || is_trail c then UnicodeEscape c
          else [c]
      end
  end.

Definition QuoteJSONString (s : jsstr) : jsstr :=
  34 :: concat (map quote_codepoint (StringToCodePoints s)) ++ [34].

(** [JSON.stringify(l)] for an array of strings, no indentation. *)
Definition JSON_stringify (l : list jsstr) : jsstr :=
  91 :: join [44] (map QuoteJSONString l) ++ [93].

(** [JSON.stringify(a) !== JSON.stringify(b)] *)
Definition stringify_differs (a b : list jsstr) : bool :=
  bool_decide (JSON_stringify a ≠ JSON_stringify b).

(** ** The plugin and the part of the host it touches *)

(** Input elements: the host's own, and those the plugin creates with
    [document.createElement]. *)
Inductive element :=
  | Native (n : nat)
  | Created (n : nat).

#[global] Instance element_eq_dec : EqDecision element.
Proof. solve_decision. Defined.

#[global] Instance element_countable : Countable element :=
  inj_countable'
    (fun e => match e with Native n => inl n | Created n => inr n end)
    (fun s => match s with inl n => Native n | inr n => Created n end)
    (fun e => match e with Native _ | Created _ => eq_refl end).

(** The children of the graph control panel, in document order. *)
Inductive node :=
  | HostSearchSetting (native : option nat)
      (* .setting-item.mod-search-setting, with the native
         .search-input-container input when the host rendered one *)
  | HostNode (input : option nat)
      (* any other host node, possibly holding a matching input *)
  | PillsContainer (id : nat)
      (* div.graph-filters-pills, created on line 137 *)
  | SecondaryContainer (id : nat).
      (* div.search-input-container around the input of line 60 *)

#[global] Instance node_eq_dec : EqDecision node.
Proof. solve_decision. Defined.

(** One rendered pill (lines 145-170): its [data-index] and the value of
    its text field. *)
Record pill := { pill_index : nat; pill_value : jsstr }.

(** What the plugin does to the outside, most recent first. *)
Inductive effect :=
  | ConsoleLog                 (* console.log *)
  | SaveData (fs : list jsstr) (* this.saveData(this.settings) *)
  | DispatchInput (el : element) (* synthetic 'input' event, line 209 *)
  | ScheduleChange (el : element) (* the 10ms timer of line 212 *)
  | Render                     (* a run of renderPills *)
  | Reported.                  (* exception escaping an event listener *)

Record plugin := {
  filters : list jsstr;              (* this.settings.filters *)
  filtersContainer : option nat;     (* undefined until line 137 *)
  searchInput : option element;
  secondaryInput : option element;
  existingSecondaryInput : bool;
  doc : list node;
  values : gmap element jsstr;       (* .value of the input elements *)
  inputListeners : list element;     (* 'input' listeners of line 112 *)
  keydownListeners : list element;   (* 'keydown' listeners of line 73 *)
  pills : gmap nat (list pill);      (* children of a pills container *)
  next_id : nat;                     (* identity of the next new element *)
  disk : list jsstr;                 (* last payload given to saveData *)
  trace : list effect
}.

Definition set_filters (fs : list jsstr) (st : plugin) : plugin :=
  {| filters := fs; filtersContainer := filtersContainer st;
     searchInput := searchInput st; secondaryInput := secondaryInput st;
     existingSecondaryInput := existingSecondaryInput st; doc := doc st;
     values := values st; inputListeners := inputListeners st;
     keydownListeners := keydownListeners st; pills := pills st;
     next_id := next_id st; disk := disk st; trace := trace st |}.

Definition set_value (el : element) (v : jsstr) (st : plugin) : plugin :=
  {| filters := filters st; filtersContainer := filtersContainer st;
     searchInput := searchInput st; secondaryInput := secondaryInput st;
     existingSecondaryInput := existingSecondaryInput st; doc := doc st;
     values := <[el := v]> (values st); inputListeners := inputListeners st;
     keydownListeners := keydownListeners st; pills := pills st;
     next_id := next_id st; disk := disk st; trace := trace st |}.

Definition set_pills (c : nat) (ps : list pill) (st : plugin) : plugin :=
  {| filters := filters st; filtersContainer := filtersContainer st;
     searchInput := searchInput st; secondaryInput := secondaryInput st;
     existingSecondaryInput := existingSecondaryInput st; doc := doc st;
     values := values st; inputListeners := inputListeners st;
     keydownListeners := keydownListeners st;
     pills := <[c := ps]> (pills st);
     next_id := next_id st; disk := disk st; trace := trace st |}.

Definition emit (e : effect) (st : plugin) : plugin :=
  {| filters := filters st; filtersContainer := filtersContainer st;
     searchInput := searchInput st; secondaryInput := secondaryInput st;
     existingSecondaryInput := existingSecondaryInput st; doc := doc st;
     values := values st; inputListeners := inputListeners st;
     keydownListeners := keydownListeners st; pills := pills st;
     next_id := next_id st; disk := disk st; trace := e :: trace st |}.

(** The text of an input element. *)
Definition value_of (st : plugin) (el : element) : jsstr :=
  default [] (values st !! el).

Definition pills_of (st : plugin) (c : nat) : list pill :=
  default [] (pills st !! c).

(** A method either returns or throws; the fields keep what was written
    before the exception. *)
Inductive outcome :=
  | Returned (st : plugin)
  | Threw (st : plugin).

Definition state_of (o : outcome) : plugin :=
  match o with Returned st | Threw st => st end.

Definition threw (o : outcome) : bool :=
  match o with Returned _ => false | Threw _ => true end.

(** [document.querySelector('.graph-controls .setting-item.mod-search-setting')]:
    the position of the first match. *)
Fixpoint queryControls (d : list node) : option nat :=
  match d with
  | [] => None
  | HostSearchSetting _ :: _ => Some 0%nat
  | _ :: d' => S <$> queryControls d'
  end.

Definition node_input (n : node) : option element :=
  match n with
  | HostSearchSetting i | HostNode i => Native <$> i
  | SecondaryContainer i => Some (Created i)
  | PillsContainer _ => None
  end.

(** [document.querySelector('.graph-controls .search-input-container input')] *)
Fixpoint querySearchInput (d : list node) : option element :=
  match d with
  | [] => None
  | n :: d' =>
      match node_input n with
      | Some el => Some el
      | None => querySearchInput d'
      end
  end.

(** [controls.parentNode.insertBefore(n, controls.nextSibling)] *)
Definition insertAfter (i : nat) (n : node) (d : list node) : list node :=
  take (S i) d ++ n :: drop (S i) d.

(** [this.filtersContainer?.isConnected] *)
Definition isConnected (st : plugin) : bool :=
  match filtersContainer st with
  | Some c => bool_decide (PillsContainer c ∈ doc st)
  | None => false
  end.

(** Lines 227-229. *)
Definition saveSettings (st : plugin) : plugin :=
  {| filters := filters st; filtersContainer := filtersContainer st;
     searchInput := searchInput st; secondaryInput := secondaryInput st;
     existingSecondaryInput := existingSecondaryInput st; doc := doc st;
     values := values st; inputListeners := inputListeners st;
     keydownListeners := keydownListeners st; pills := pills st;
     next_id := next_id st; disk := filters st;
     trace := SaveData (filters st) :: trace st |}.

(** Lines 133-140. *)
Definition createPillsContainer (st : plugin) : plugin :=
  match queryControls (doc st) with
  | None => st
  | Some i =>
      if isConnected st then st
      else
        {| filters := filters st; filtersContainer := Some (next_id st);
           searchInput := searchInput st; secondaryInput := secondaryInput st;
           existingSecondaryInput := existingSecondaryInput st;
           doc := insertAfter i (PillsContainer (next_id st)) (doc st);
           values := values st; inputListeners := inputListeners st;
           keydownListeners := keydownListeners st;
           pills := <[next_id st := []]> (pills st);
           next_id := S (next_id st); disk := disk st; trace := trace st |}
  end.

(** Lines 48-68: both branches write one console line. *)
Definition createSecondaryInput (st : plugin) : plugin :=
  match queryControls (doc st) with
  | None => emit ConsoleLog st
  | Some i =>
      if existingSecondaryInput st then emit ConsoleLog st
      else
        {| filters := filters st; filtersContainer := filtersContainer st;
           searchInput := searchInput st;
           secondaryInput := Some (Created (next_id st));
           existingSecondaryInput := true;
           doc := insertAfter i (SecondaryContainer (next_id st)) (doc st);
           values := <[Created (next_id st) := []]> (values st);
           inputListeners := inputListeners st;
           keydownListeners := keydownListeners st; pills := pills st;
           next_id := S (next_id st); disk := disk st;
           trace := ConsoleLog :: trace st |}
  end.

(** Lines 70-79 and 217-221. *)
Definition registerInputHandler (input : option element) (st : plugin) : plugin :=
  match input with
  | None => st
  | Some el =>
      {| filters := filters st; filtersContainer := filtersContainer st;
         searchInput := searchInput st; secondaryInput := secondaryInput st;
         existingSecondaryInput := existingSecondaryInput st; doc := doc st;
         values := values st; inputListeners := inputListeners st;
         keydownListeners := el :: keydownListeners st; pills := pills st;
         next_id := next_id st; disk := disk st; trace := trace st |}
  end.

Definition registerSearchHandlers (st : plugin) : plugin :=
  registerInputHandler (secondaryInput st) st.

(** Lines 105-114. *)
Definition initializeMainInput (st : plugin) : plugin :=
  let found := querySearchInput (doc st) in
  {| filters := filters st; filtersContainer := filtersContainer st;
     searchInput := found; secondaryInput := secondaryInput st;
     existingSecondaryInput := existingSecondaryInput st; doc := doc st;
     values := values st;
     inputListeners :=
       match found with
       | Some el => el :: inputListeners st
       | None => inputListeners st
       end;
     keydownListeners := keydownListeners st; pills := pills st;
     next_id := next_id st; disk := disk st; trace := trace st |}.

(** The body of the [forEach] of lines 144-171: [createDiv] is called on
    [this.filtersContainer] without a guard. *)
Fixpoint forEach_pill (fs : list jsstr) (index : nat) (st : plugin) : outcome :=
  match fs with
  | [] => Returned st
  | f :: fs' =>
      match filtersContainer st with
      | None => Threw st
      | Some c =>
          forEach_pill fs' (S index)
            (set_pills c
               (pills_of st c ++ [{| pill_index := index; pill_value := f |}])
               st)
      end
  end.

(** Lines 142-172. *)
Definition renderPills (st : plugin) : outcome :=
  let st1 :=
    match filtersContainer st with
    | Some c => set_pills c [] st
    | None => st
    end in
  forEach_pill (filters st1) 0 (emit Render st1).

(** Lines 116-131. *)
Definition handleSearchInputChange (st : plugin) : outcome :=
  match searchInput st with
  | None => Returned st
  | Some el =>
      let newFilters := parseFilters (value_of st el) in
      if stringify_differs newFilters (filters st)
      then renderPills (saveSettings (set_filters newFilters st))
      else Returned st
  end.

(** An exception in an event listener is reported by the dispatcher and
    does not reach the caller of [dispatchEvent]. *)
Definition report (o : outcome) : plugin :=
  match o with
  | Returned st => st
  | Threw st => emit Reported st
  end.

Fixpoint run_listeners (n : nat) (st : plugin) : plugin :=
  match n with
  | O => st
  | S n' => run_listeners n' (report (handleSearchInputChange st))
  end.

(** [el.dispatchEvent(new Event('input', ...))]: the listeners of line
    112 attached to [el] run before the call returns.  The host's own
    listener re-evaluates the graph search and leaves the plugin alone. *)
Definition dispatchInput (el : element) (st : plugin) : plugin :=
  run_listeners (count_occ element_eq_dec (inputListeners st) el)
    (emit (DispatchInput el) st).

(** Lines 195-215. *)
Definition updateSearchQuery (st : plugin) : plugin :=
  match searchInput st with
  | None => st
  | Some el =>
      emit (ScheduleChange el)
        (dispatchInput el (set_value el (combinedQuery (filters st)) st))
  end.

(** Lines 174-186; [if (value)] holds for a non-empty string. *)
Definition handleNewFilter (sourceInput : option element) (st : plugin) : outcome :=
  match from_option Some (searchInput st) sourceInput with
  | None => Returned st
  | Some input =>
      let value := trim (value_of st input) in
      if (0 <? length value)%nat
      then
        renderPills
          (updateSearchQuery
             (saveSettings
                (set_value input [] (set_filters (filters st ++ [value]) st))))
      else Returned st
  end.

(** [l.splice(index, 1)]: a negative start counts from the end. *)
Definition splice1 {A} (index : Z) (l : list A) : list A :=
  let len := Z.of_nat (length l) in
  let start :=
    if (index <? 0)%Z then Z.max (len + index) 0 else Z.min index len in
  delete (Z.to_nat start) l.

(** Lines 188-193. *)
Definition removeFilter (index : Z) (st : plugin) : outcome :=
  renderPills
    (updateSearchQuery (saveSettings (set_filters (splice1 index (filters st)) st))).

(** The callback handed to [debounce] on lines 36-42. *)
Definition debouncedCallback (index : Z) (value : jsstr) (st : plugin) : plugin :=
  if ((0 <=? index)%Z && (index <? Z.of_nat (length (filters st)))%Z)
  then
    updateSearchQuery
      (saveSettings
         (set_filters (<[Z.to_nat index := trim value]> (filters st)) st))
  else st.

(** Lines 81-103. *)
Definition initializeComponents (st : plugin) : outcome :=
  let st1 :=
    initializeMainInput
      (registerSearchHandlers (createSecondaryInput (createPillsContainer st))) in
  let st2 :=
    match searchInput st1 with
    | Some el =>
        let newFilters := parseFilters (value_of st1 el) in
        if stringify_differs newFilters (filters st1)
        then saveSettings (set_filters newFilters st1)
        else st1
    | None => st1
    end in
  renderPills st2.

(** The listener of lines 23-31; [leaf?.view.getViewType()] may be
    undefined. *)
Definition onActiveLeafChange (viewType : option string) (st : plugin) : outcome :=
  let st1 := emit ConsoleLog st in
  match viewType with
  | Some v =>
      if String.eqb v "graph" || String.eqb v "bookmarks"
      then initializeComponents st1
      else Returned st1
  | None => Returned st1
  end.

(** The plugin right after [onload], with the persisted filter list
    [fs], over a document [d] whose inputs hold [vals]. *)
Definition loaded (fs : list jsstr) (d : list node) (vals : gmap element jsstr) : plugin :=
  {| filters := fs; filtersContainer := None; searchInput := None;
     secondaryInput := None; existingSecondaryInput := false; doc := d;
     values := vals; inputListeners := []; keydownListeners := [];
     pills := ∅; next_id := 0; disk := fs; trace := [] |}.

(** ** Settings (lines 3-9 and 223-225) *)

#[warnings="-register-all"]
Inductive jsval :=
  | JNull
  | JBool (b : bool)
  | JNum (literal : string)
  | JStr (s : jsstr)
  | JArr (items : list jsval)
  | JObj (fields : list (string * jsval)).

Definition DEFAULT_SETTINGS : gmap string jsval :=
  {[ "filters"%string := JArr [] ]}.

(** [{ ...DEFAULT_SETTINGS, ...data }]: [loadData] resolves to [null]
    when nothing was saved; spreading [null] adds nothing, and a key of
    [data] replaces the default's. *)
Definition loadSettings (data : option (gmap string jsval)) : gmap string jsval :=
  match data with
  | None => DEFAULT_SETTINGS
  | Some m => m ∪ DEFAULT_SETTINGS
  end.

Definition as_string (v : jsval) : option jsstr :=
  match v with JStr s => Some s | _ => None end.

(** The settings read at the type the class declares:
    [{ filters: string[] }]. *)
Definition filters_of (settings : gmap string jsval) : option (list jsstr) :=
  match settings !! "filters"%string with
  | Some (JArr items) => mapM as_string items
  | _ => None
  end.

(** ** Filter terms

    A term as the specification describes it: non-empty and free of
    leading and trailing white space. *)
Definition plain_term (e : jsstr) : Prop := e ≠ [] ∧ trim e = e.

(** A term the derived query text gives back: it holds no delimiter of
    its own and does not end in the delimiter's first six code units,
    which would join with the separator that follows it. *)
Definition separable (e : jsstr) : bool :=
  negb (includes delimiter e) && negb (endsWith (u16 "   AND") e).


(** The code points [StringToCodePoints] can produce. *)
Definition valid_codepoint (p : codepoint) : Prop :=
  match p with
  | Pair hi lo => is_lead hi = true ∧ is_trail lo = true
  | Unit _ => True
  end.

Definition units_of (p : codepoint) : jsstr :=
  match p with
  | Pair hi lo => [hi; lo]
  | Unit c => [c]
  end.


(** ** Vocabulary of the statements *)

(** The pills a render leaves in the container: one per filter, in
    order, carrying its position. *)
Fixpoint pills_from (index : nat) (fs : list jsstr) : list pill :=
  match fs with
  | [] => []
  | f :: fs' => {| pill_index := index; pill_value := f |} :: pills_from (S index) fs'
  end.

(** One listener of line 112 run by the event dispatcher. *)
Definition reconcile (st : plugin) : plugin :=
  report (handleSearchInputChange st).

(** Line 112 attaches the listener to whatever line 106 stored. *)
Definition listening (st : plugin) : Prop :=
  ∀ el, searchInput st = Some el → el ∈ inputListeners st.

(** The host replaces the children of the control panel. *)
Definition set_doc (d : list node) (st : plugin) : plugin :=
  {| filters := filters st; filtersContainer := filtersContainer st;
     searchInput := searchInput st; secondaryInput := secondaryInput st;
     existingSecondaryInput := existingSecondaryInput st; doc := d;
     values := values st; inputListeners := inputListeners st;
     keydownListeners := keydownListeners st; pills := pills st;
     next_id := next_id st; disk := disk st; trace := trace st |}.

Definition is_pills (n : node) : bool :=
  match n with PillsContainer _ => true | _ => false end.

Definition is_secondary (n : node) : bool :=
  match n with SecondaryContainer _ => true | _ => false end.

Definition count_pills (d : list node) : nat := length (List.filter is_pills d).

Definition count_secondary (d : list node) : nat :=
  length (List.filter is_secondary d).

(** [this.secondaryInput] is an element of the document. *)
Definition secondaryAttached (st : plugin) : bool :=
  match secondaryInput st with
  | Some (Created i) => bool_decide (SecondaryContainer i ∈ doc st)
  | _ => false
  end.

(** The document holds at most one element of each kind the plugin
    makes, a pills container only if [this.filtersContainer] is
    connected and a secondary input only if the flag is set. *)
Definition tidy (st : plugin) : Prop :=
  (count_pills (doc st) ≤ 1)%nat
  ∧ (isConnected st = false → count_pills (doc st) = 0%nat)
  ∧ (count_secondary (doc st) ≤ 1)%nat
  ∧ (existingSecondaryInput st = false → count_secondary (doc st) = 0%nat).


(** The text of an input changes outside the plugin, by typing or by
    the host, and the 'input' event that follows runs the listeners of
    line 112 attached to it. *)
Definition userInput (el : element) (v : jsstr) (st : plugin) : plugin :=
  run_listeners (count_occ element_eq_dec (inputListeners st) el)
    (set_value el v st).

(** The plugin after its first setup over a panel that holds the host's
    search setting and its native input, still empty. *)
Definition ready : plugin :=
  state_of (initializeComponents (loaded [] [HostSearchSetting (Some 0%nat)] ∅)).


(** The plugin with one filter [a], typed into the native input. *)
Definition ready_a : plugin := userInput (Native 0) (u16 "a") ready.


(** Three filters typed into the native input; a tab after the first
    AND keeps the first term from being cut. *)
Definition ready_xyz : plugin :=
  userInput (Native 0)
    (u16 "x   AND" ++ [9] ++ u16 "   AND   y   AND   z") ready.

(** Two filters [a] and [b], typed into the native input. *)
Definition ready_ab : plugin := userInput (Native 0) (u16 "a   AND   b") ready.

(** Three filters [a], [b] and [c]. *)
Definition ready_abc : plugin :=
  userInput (Native 0) (u16 "a   AND   b   AND   c") ready.


(** ** Keyboard events on the secondary input (lines 70-79) *)

Record keyEvent := { key : string; ctrlKey : bool; isComposing : bool }.

(** The listener of lines 73-78.  [e.preventDefault()] only tells the
    host to skip its own handling of the key and has no part in the
    plugin's state. *)
Definition keydownListener (input : element) (e : keyEvent) (st : plugin) : outcome :=
  if String.eqb (key e) "Enter" && ctrlKey e && negb (isComposing e)
  then handleNewFilter (Some input) st
  else Returned st.

Fixpoint run_keydown (n : nat) (input : element) (e : keyEvent) (st : plugin) : plugin :=
  match n with
  | O => st
  | S n' => run_keydown n' input e (report (keydownListener input e st))
  end.

(** A key pressed in [el]: every listener line 73 attached to it runs. *)
Definition dispatchKeydown (el : element) (e : keyEvent) (st : plugin) : plugin :=
  run_keydown (count_occ element_eq_dec (keydownListeners st) el) el e st.

(** The commit keystroke of line 74. *)
Definition ctrlEnter : keyEvent :=
  {| key := "Enter"; ctrlKey := true; isComposing := false |}.

(** ** Relations between the list, the native text and the store *)

(** The list is what the text of the search input parses to. *)
Definition bound (st : plugin) : Prop :=
  ∀ el, searchInput st = Some el → filters st = parseFilters (value_of st el).

(** The last payload given to [saveData] is the list. *)
Definition synced (st : plugin) : Prop := disk st = filters st.

(** An entry as reconciliation leaves it. *)
Definition normal_term (f : jsstr) : Prop :=
  f ≠ [] ∧ trim f = f ∧ includes delimiter f = false.


(** ** The debounced edit (lines 34-46)

    Modelled from the spec: [debounce] belongs to the host package
    [obsidian] and is not part of this repository; the source only shows
    the call [debounce(cb, 300, true)].  The specification words it in
    two ways.  Sections 5 and 9: each call records its arguments and
    re-arms a single pending timer, and on fire only the latest
    arguments are applied ([Trailing]).  Section 4.1: the first call of
    a burst fires immediately and the later ones within the fixed window
    are coalesced, a later one superseding a pending earlier one
    ([Leading]).  Time is counted in milliseconds. *)

Record call := { call_time : nat; call_index : Z; call_value : jsstr }.

Record debouncer := { deadline : option nat; latest : option (Z * jsstr) }.

Definition idle : debouncer := {| deadline := None; latest := None |}.

Inductive edge := Leading | Trailing.

(** The timer runs out: the callback of lines 36-42 gets the recorded
    arguments. *)
Definition fire (d : debouncer) (st : plugin) : plugin :=
  match latest d with
  | Some (index, value) => debouncedCallback index value st
  | None => st
  end.

(** The clock reaches [now]. *)
Definition elapse (now : nat) (ds : debouncer * plugin) : debouncer * plugin :=
  match deadline ds.1 with
  | Some due => if (due <=? now)%nat then (idle, fire ds.1 ds.2) else ds
  | None => ds
  end.

(** [this.debouncedUpdate(index, value)] at time [call_time c]
    (line 161). *)
Definition debouncedUpdate (e : edge) (timeout : nat) (c : call)
    (ds : debouncer * plugin) : debouncer * plugin :=
  let ds' := elapse (call_time c) ds in
  match e with
  | Trailing =>
      ({| deadline := Some (call_time c + timeout)%nat;
          latest := Some (call_index c, call_value c) |}, ds'.2)
  | Leading =>
      match deadline ds'.1 with
      | None =>
          ({| deadline := Some (call_time c + timeout)%nat; latest := None |},
           debouncedCallback (call_index c) (call_value c) ds'.2)
      | Some due =>
          ({| deadline := Some due;
              latest := Some (call_index c, call_value c) |}, ds'.2)
      end
  end.

Definition run_calls (e : edge) (timeout : nat) (calls : list call)
    (ds : debouncer * plugin) : debouncer * plugin :=
  fold_left (λ ds c, debouncedUpdate e timeout c ds) calls ds.

(** No further call comes: the pending timer, if any, runs out. *)
Definition settle (ds : debouncer * plugin) : plugin :=
  match deadline ds.1 with
  | Some _ => fire ds.1 ds.2
  | None => ds.2
  end.

(** The plugin after its first setup over a panel in which the search
    input is found but the host's search setting is not. *)
Definition bare : plugin :=
  state_of (initializeComponents (loaded [] [HostNode (Some 0%nat)] ∅)).


(** * Properties *)

(** ** The primitives on the texts of the source *)

Example trim_blanks : trim (u16 " b ") = u16 "b" ∧ trim (u16 "   ") = [].
Proof. split; reflexivity. Qed.

Example split_trailing :
  split delimiter (u16 "x   AND   y   AND   ") = [u16 "x"; u16 "y"; []].
Proof. reflexivity. Qed.

Example split_leftmost :
  split delimiter (u16 "a   AND   AND   AND   b") = [u16 "a"; u16 "AND"; u16 "b"].
Proof. reflexivity. Qed.

Example join_three :
  combinedQuery [u16 "a"; u16 "b"; u16 "c"] = u16 "a   AND   b   AND   c".
Proof. reflexivity. Qed.

(** A quote and a line feed inside a string are escaped. *)
Example stringify_escapes :
  JSON_stringify [u16 "a"; [34; 10]]
  = [91; 34; 97; 34; 44; 34; 92; 34; 92; 110; 34; 93].
Proof. reflexivity. Qed.

Example splice_from_end : splice1 (-1) [1; 2; 3] = [1; 2].
Proof. reflexivity. Qed.

(** ** Strings *)

Section strings.
Implicit Types (p s t r : jsstr) (c : N).

Lemma startsWith_true p s : startsWith p s = true ↔ ∃ r, s = p ++ r.
Proof.
  revert s; induction p as [|a p IH]; intros s; simpl.
  - split; eauto.
  - destruct s as [|b s].
    + split; [done | intros [r Hr]; discriminate].
    + rewrite andb_true_iff, N.eqb_eq, IH. split.
      * intros [-> [r ->]]. by exists r.
      * intros [r Hr]. injection Hr as -> ->. eauto.
Qed.

Lemma startsWith_app p r : startsWith p (p ++ r) = true.
Proof. apply startsWith_true. eauto. Qed.

Lemma startsWith_length p s : startsWith p s = true → (length p ≤ length s)%nat.
Proof.
  intros [r ->]%startsWith_true. rewrite length_app. lia.
Qed.

(** A match that begins inside [t] either lies within [t] or sticks
    out of it. *)
Lemma startsWith_across p t r :
  startsWith p (t ++ r) = true →
  startsWith p t = true
  ∨ ((length t < length p)%nat ∧ t = take (length t) p
     ∧ startsWith (drop (length t) p) r = true).
Proof.
  revert t; induction p as [|a p IH]; intros t; simpl.
  - by left.
  - destruct t as [|b t]; simpl.
    + intros H. right. split; [lia|]. done.
    + rewrite andb_true_iff. intros [Hab H].
      destruct (IH _ H) as [Hl | (Hlen & Ht & Hr)].
      * left. by rewrite Hab, Hl.
      * right. apply N.eqb_eq in Hab as ->.
        split; [lia|]. split; [by f_equal | done].
Qed.

Lemma indexOf_Some p s j :
  indexOf p s = Some j ↔
  startsWith p (drop j s) = true
  ∧ ∀ i, (i < j)%nat → startsWith p (drop i s) = false.
Proof.
  revert j; induction s as [|b s IH]; intros j.
  - cbn [indexOf]. destruct (startsWith p []) eqn:E.
    + split.
      * intros [= <-]. split; [done | lia].
      * intros [_ H]. destruct j as [|j]; [done|].
        specialize (H 0%nat ltac:(lia)). simpl in H. congruence.
    + split; [done|]. intros [H _]. rewrite drop_nil in H. congruence.
  - cbn [indexOf]. destruct (startsWith p (b :: s)) eqn:E.
    + split.
      * intros [= <-]. split; [done | lia].
      * intros [_ H]. destruct j as [|j]; [done|].
        specialize (H 0%nat ltac:(lia)). simpl in H. congruence.
    + destruct j as [|j].
      * split.
        -- generalize (indexOf p s). intros []; discriminate.
        -- intros [H _]. simpl in H. congruence.
      * transitivity (indexOf p s = Some j).
        { generalize (indexOf p s). intros [k|]; simpl; split; congruence. }
        rewrite IH. simpl. split; intros [H1 H2]; (split; [done|]).
        -- intros [|i] Hi; [done|]. simpl. apply H2. lia.
        -- intros i Hi. apply (H2 (S i)). lia.
Qed.

Lemma indexOf_None p s i : indexOf p s = None → startsWith p (drop i s) = false.
Proof.
  revert i; induction s as [|b s IH]; intros i; cbn [indexOf].
  - rewrite drop_nil. by destruct (startsWith p []).
  - destruct (startsWith p (b :: s)) eqn:E; [done|].
    destruct (indexOf p s) eqn:Ek; [done|]. intros _.
    destruct i as [|i]; [done|]. simpl. by apply IH.
Qed.

Lemma includes_false p s i :
  includes p s = false → startsWith p (drop i s) = false.
Proof.
  unfold includes. destruct (indexOf p s) eqn:E; [done|].
  intros _. by apply indexOf_None.
Qed.

Lemma indexOf_bound p s j :
  indexOf p s = Some j → (j + length p ≤ length s)%nat.
Proof.
  intros [H Hmin]%indexOf_Some. destruct p as [|a p].
  - destruct j as [|j]; [simpl; lia|].
    specialize (Hmin 0%nat ltac:(lia)). done.
  - apply startsWith_length in H. rewrite length_drop in H.
    simpl in *. lia.
Qed.

Lemma endsWith_app p t : endsWith p (t ++ p) = true.
Proof. unfold endsWith. rewrite rev_app_distr. apply startsWith_app. Qed.

(** Spare rounds do not change the result of [split]. *)
Lemma split_rounds_enough sep n m s :
  sep ≠ [] → (length s ≤ n)%nat → (length s ≤ m)%nat →
  split_rounds n sep s = split_rounds m sep s.
Proof.
  intros Hsep. revert m s; induction n as [|n IH]; intros m s Hn Hm.
  - destruct s; [|simpl in Hn; lia].
    assert (indexOf sep [] = None) as E.
    { destruct (indexOf sep []) eqn:E; [|done].
      apply indexOf_bound in E. destruct sep; [done | simpl in E; lia]. }
    destruct m; cbn [split_rounds]; by rewrite E.
  - cbn [split_rounds]. destruct (indexOf sep s) as [j|] eqn:E.
    + pose proof (indexOf_bound _ _ _ E) as Hb.
      assert (0 < length sep)%nat by (destruct sep; [done | simpl; lia]).
      destruct m as [|m]; [lia|].
      cbn [split_rounds]. rewrite E. f_equal.
      apply IH; rewrite length_drop; lia.
    + destruct m; cbn [split_rounds]; by rewrite E.
Qed.

(** The loop of [split], one cut at a time. *)
Lemma split_unfold sep s :
  sep ≠ [] →
  split sep s =
    match indexOf sep s with
    | None => [s]
    | Some j => take j s :: split sep (drop (j + length sep) s)
    end.
Proof.
  intros Hsep. unfold split.
  destruct (indexOf sep s) as [j|] eqn:E.
  - pose proof (indexOf_bound _ _ _ E) as Hb.
    assert (0 < length sep)%nat by (destruct sep; [done | simpl; lia]).
    destruct (length s) as [|n] eqn:En; [lia|].
    cbn [split_rounds]. rewrite E. f_equal.
    apply split_rounds_enough; [done | rewrite length_drop; lia | lia].
  - destruct (length s); cbn [split_rounds]; by rewrite E.
Qed.

Lemma trimStart_head s :
  trimStart s = [] ∨ ∃ c s', trimStart s = c :: s' ∧ is_ws c = false.
Proof.
  induction s as [|c s IH]; simpl; [by left|].
  destruct (is_ws c) eqn:E; [done|]. right. eauto.
Qed.

Lemma trimStart_id c s : is_ws c = false → trimStart (c :: s) = c :: s.
Proof. intros H. simpl. by rewrite H. Qed.

Lemma trimEnd_last s :
  trimEnd s = [] ∨ ∃ s' c, trimEnd s = s' ++ [c] ∧ is_ws c = false.
Proof.
  unfold trimEnd. destruct (trimStart_head (rev s)) as [-> | (c & s' & -> & Hc)].
  - by left.
  - right. exists (rev s'), c. done.
Qed.

Lemma trim_last s :
  trim s = s → s ≠ [] → ∃ s' c, s = s' ++ [c] ∧ is_ws c = false.
Proof.
  intros Ht Hne. unfold trim in Ht.
  destruct (trimEnd_last (trimStart s)) as [E | (s' & c & E & Hc)];
    rewrite Ht in E; [done | eauto].
Qed.
End strings.

(** ** The derived query text and its parse *)

Section roundtrip.
Implicit Types (e r : jsstr) (L : list jsstr).

Lemma delimiter_ne : delimiter ≠ [].
Proof. done. Qed.

(** In [e ++ delimiter ++ r] no delimiter starts inside a separable
    term whose last code unit is not white space. *)
Lemma no_early_cut e r i :
  (∃ e' c, e = e' ++ [c] ∧ is_ws c = false) →
  separable e = true →
  (i < length e)%nat →
  startsWith delimiter (drop i (e ++ delimiter ++ r)) = false.
Proof.
  intros (e' & c & He & Hc) [Hinc Hend]%andb_true_iff Hi.
  apply negb_true_iff in Hinc, Hend.
  rewrite drop_app_le by lia.
  destruct (startsWith delimiter (drop i e ++ delimiter ++ r)) eqn:E; [|done].
  apply startsWith_across in E as [E | (Hlen & Ht & E)].
  { by rewrite includes_false in E. }
  assert (last (drop i e) = Some c) as Hlast.
  { rewrite He, drop_app_le, last_snoc; [done|].
    rewrite He, length_app in Hi. simpl in Hi. lia. }
  assert (e = take i e ++ drop i e) as Hsplit by (by rewrite take_drop).
  assert (0 < length (drop i e))%nat as Hpos by (rewrite length_drop; lia).
  revert Hlen Ht E Hlast Hsplit Hpos.
  generalize (drop i e) as t. intros t Hlen Ht E Hlast Hsplit Hpos.
  destruct (length t) as [|k]; [lia|].
  do 8 (destruct k as [|k];
        [ vm_compute in Ht; subst t;
          first [ by vm_compute in E
                | injection Hlast as <-; by vm_compute in Hc
                | rewrite Hsplit, endsWith_app in Hend; done ] |]).
  vm_compute in Hlen. lia.
Qed.

Lemma first_cut e r :
  plain_term e → separable e = true →
  indexOf delimiter (e ++ delimiter ++ r) = Some (length e).
Proof.
  intros [Hne Htrim] Hsep. apply indexOf_Some. split.
  - rewrite drop_app_length. apply startsWith_app.
  - intros i Hi. apply no_early_cut; [|done..]. by apply trim_last.
Qed.

Lemma split_cons e r :
  plain_term e → separable e = true →
  split delimiter (e ++ delimiter ++ r) = e :: split delimiter r.
Proof.
  intros He Hsep. rewrite split_unfold by apply delimiter_ne.
  rewrite first_cut by done.
  rewrite take_app_length. f_equal. f_equal.
  rewrite <- drop_drop, drop_app_length. apply drop_app_length.
Qed.

Lemma split_last e :
  separable e = true → split delimiter e = [e].
Proof.
  intros [Hinc _]%andb_true_iff. apply negb_true_iff in Hinc.
  rewrite split_unfold by apply delimiter_ne.
  unfold includes in Hinc. by destruct (indexOf delimiter e).
Qed.

Lemma split_join L :
  L ≠ [] →
  Forall plain_term L → Forall (λ e, separable e = true) L →
  split delimiter (combinedQuery L) = L.
Proof.
  unfold combinedQuery.
  induction L as [|e [|e' L] IH]; intros Hne Hp Hs; [done| |].
  - simpl. apply split_last. by inversion Hs.
  - cbn [join]. inversion Hp; inversion Hs; subst.
    rewrite split_cons by done. f_equal. by apply IH.
Qed.

Lemma map_trim_plain L : Forall plain_term L → map trim L = L.
Proof.
  induction 1 as [|e L [_ He] _ IH]; simpl; [done|]. by rewrite He, IH.
Qed.

Lemma filter_nonempty_plain L :
  Forall plain_term L → List.filter (λ f, (0 <? length f)%nat) L = L.
Proof.
  induction 1 as [|e L [He _] _ IH]; simpl; [done|].
  destruct e; [done|]. simpl. by rewrite IH.
Qed.

(** What [parseFilters] returns holds no empty string. *)
Lemma parseFilters_nonempty v : Forall (λ f, f ≠ []) (parseFilters v).
Proof.
  unfold parseFilters. apply Forall_forall. intros f Hf.
  apply list_elem_of_In, filter_In in Hf as [_ Hf].
  destruct f; [done | done].
Qed.

Lemma parse_combined L :
  Forall plain_term L → Forall (λ e, separable e = true) L →
  parseFilters (combinedQuery L) = L.
Proof.
  intros Hp Hs. destruct L as [|e L]; [done|].
  unfold parseFilters. rewrite split_join by done.
  rewrite map_trim_plain by done. by apply filter_nonempty_plain.
Qed.
Lemma indexOf_here (p s : jsstr) : startsWith p s = true → indexOf p s = Some 0%nat.
Proof. intros H. destruct s; cbn [indexOf]; by rewrite H. Qed.

Lemma split_cons_empty r :
  split delimiter (delimiter ++ r) = [] :: split delimiter r.
Proof.
  rewrite split_unfold by apply delimiter_ne.
  rewrite indexOf_here by apply startsWith_app.
  rewrite take_0. reflexivity.
Qed.

(** Empty entries do not disturb the cuts: the derived text still
    splits into the entries, and the parse drops the empty ones. *)
Lemma split_join_loose L :
  L ≠ [] →
  Forall (λ e, e = [] ∨ (plain_term e ∧ separable e = true)) L →
  split delimiter (combinedQuery L) = L.
Proof.
  unfold combinedQuery.
  induction L as [|e [|e' L] IH]; intros Hne Hall; [done| |].
  - simpl. inversion Hall as [|? ? [->|[_ Hs]] _]; subst; [done|].
    by apply split_last.
  - cbn [join]. inversion Hall as [|? ? He Hall']; subst.
    destruct He as [->|[Hp Hs]].
    + rewrite app_nil_l, split_cons_empty. f_equal. by apply IH.
    + rewrite split_cons by done. f_equal. by apply IH.
Qed.

Lemma parse_combined_loose L :
  Forall (λ e, e = [] ∨ (plain_term e ∧ separable e = true)) L →
  parseFilters (combinedQuery L) = List.filter (λ f, (0 <? length f)%nat) L.
Proof.
  intros Hall. destruct L as [|e L]; [done|].
  unfold parseFilters. rewrite split_join_loose by done. f_equal.
  clear -Hall. induction Hall as [|x l Hx _ IH]; [done|].
  simpl. rewrite IH. f_equal. destruct Hx as [->|[[_ Hx] _]]; done.
Qed.

Lemma filter_blanked (L : list jsstr) (i : nat) :
  Forall (λ e, e ≠ []) L →
  List.filter (λ f, (0 <? length f)%nat) (<[i := []]> L) = delete i L.
Proof.
  intros Hall. revert i. induction Hall as [|x l Hx Hl IH]; intros i; [done|].
  destruct i as [|i]; simpl.
  - clear IH. induction Hl as [|y l' Hy _ IH']; [done|].
    simpl. destruct y; [done|]. simpl. by rewrite IH'.
  - destruct x; [done|]. simpl. by rewrite IH.
Qed.
End roundtrip.

(** ** [JSON.stringify] tells string arrays apart *)

Section stringify.
Implicit Types (c d : N) (s r : jsstr) (p q : codepoint).

Lemma hexdigit_inj a b : a < 16 → b < 16 → hexdigit a = hexdigit b → a = b.
Proof.
  unfold hexdigit. intros Ha Hb.
  destruct (N.ltb_spec a 10), (N.ltb_spec b 10); lia.
Qed.

Lemma UnicodeEscape_inj c d :
  c < 65536 → d < 65536 → UnicodeEscape c = UnicodeEscape d → c = d.
Proof.
  intros Hc Hd [= H3 H2 H1 H0].
  assert (c / 4096 < 16) by (apply N.Div0.div_lt_upper_bound; lia).
  assert (d / 4096 < 16) by (apply N.Div0.div_lt_upper_bound; lia).
  apply hexdigit_inj in H3, H2, H1, H0; try (apply N.mod_lt; lia).
  rewrite !N.mod_small in H3 by done.
  pose proof (N.div_mod c 16 ltac:(lia)) as Ec0.
  pose proof (N.div_mod d 16 ltac:(lia)) as Ed0.
  pose proof (N.div_mod (c / 16) 16 ltac:(lia)) as Ec1.
  pose proof (N.div_mod (d / 16) 16 ltac:(lia)) as Ed1.
  pose proof (N.div_mod (c / 256) 16 ltac:(lia)) as Ec2.
  pose proof (N.div_mod (d / 256) 16 ltac:(lia)) as Ed2.
  rewrite N.Div0.div_div in Ec1, Ed1, Ec2, Ed2.
  change (16 * 16) with 256 in *. change (256 * 16) with 4096 in *.
  lia.
Qed.

Lemma escape_char_inj c d x :
  escape_char c = Some x → escape_char d = Some x → c = d.
Proof.
  unfold escape_char. intros Hc Hd.
  repeat match goal with
         | H : context [N.eqb ?a ?b] |- _ => destruct (N.eqb_spec a b)
         end; congruence.
Qed.

Lemma escape_char_not_u c x : escape_char c = Some x → x ≠ 117.
Proof.
  unfold escape_char. intros Hc.
  repeat match goal with
         | H : context [N.eqb ?a ?b] |- _ => destruct (N.eqb_spec a b)
         end; congruence.
Qed.

Lemma escape_char_None c : escape_char c = None → c ≠ 34 ∧ c ≠ 92.
Proof.
  unfold escape_char. intros Hc.
  repeat match goal with
         | H : context [N.eqb ?a ?b] |- _ => destruct (N.eqb_spec a b)
         end; try discriminate. done.
Qed.

(** The three shapes of a quoted code unit. *)
Lemma quote_unit_shape c :
  (∃ x, escape_char c = Some x ∧ quote_codepoint (Unit c) = [92; x])
  ∨ (escape_char c = None ∧ c < 65536
     ∧ quote_codepoint (Unit c) = UnicodeEscape c)
  ∨ (escape_char c = None ∧ is_lead c = false
     ∧ quote_codepoint (Unit c) = [c]).
Proof.
  unfold quote_codepoint. destruct (escape_char c) as [x|] eqn:E; [eauto|].
  right. destruct ((c <? 32) || is_lead c || is_trail c) eqn:Hc.
  - left. split; [done|]. split; [|done].
    unfold is_lead, is_trail in Hc.
    apply orb_true_iff in Hc as [[Hc|Hc]%orb_true_iff|Hc];
      [apply N.ltb_lt in Hc|apply andb_true_iff in Hc as [_ Hc%N.leb_le]..];
      lia.
  - right. apply orb_false_iff in Hc as [[_ Hc]%orb_false_iff _]. done.
Qed.

(** No two quoted code points start the same text, and none starts
    with the closing quote. *)
Lemma quote_codepoint_inj p q r r' :
  valid_codepoint p → valid_codepoint q →
  quote_codepoint p ++ r = quote_codepoint q ++ r' → p = q ∧ r = r'.
Proof.
  destruct p as [c|hi lo], q as [d|hi' lo'].
  - intros _ _.
    destruct (quote_unit_shape c) as [(x & Ec & ->)|[(Ec & Hc & ->)|(Ec & Hc & ->)]],
             (quote_unit_shape d) as [(y & Ed & ->)|[(Ed & Hd & ->)|(Ed & Hd & ->)]];
      simpl.
    + intros [= -> ->]. by rewrite (escape_char_inj _ _ _ Ec Ed).
    + intros [= -> _]. by apply escape_char_not_u in Ec.
    + intros [= <- _]. by apply escape_char_None in Ed as [_ ?].
    + intros [= <- _]. by apply escape_char_not_u in Ed.
    + intros [= H3 H2 H1 H0 ->]. split; [|done]. f_equal.
      apply UnicodeEscape_inj; [done..|]. unfold UnicodeEscape. congruence.
    + intros [= <- _]. by apply escape_char_None in Ed as [_ ?].
    + intros [= -> _]. by apply escape_char_None in Ec as [_ ?].
    + intros [= -> _]. by apply escape_char_None in Ec as [_ ?].
    + by intros [= -> ->].
  - intros _ [Hl _].
    destruct (quote_unit_shape c) as [(x & Ec & ->)|[(Ec & Hc & ->)|(Ec & Hc & ->)]];
      simpl; intros [= <- _]; try done. congruence.
  - intros [Hl _] _.
    destruct (quote_unit_shape d) as [(y & Ed & ->)|[(Ed & Hd & ->)|(Ed & Hd & ->)]];
      simpl; intros [= -> _]; try done. congruence.
  - intros _ _. simpl. by intros [= -> -> ->].
Qed.

Lemma quote_codepoint_open p r r' :
  valid_codepoint p → quote_codepoint p ++ r ≠ 34 :: r'.
Proof.
  destruct p as [c|hi lo].
  - intros _.
    destruct (quote_unit_shape c) as [(x & Ec & ->)|[(Ec & Hc & ->)|(Ec & Hc & ->)]];
      simpl; intros [= ? ?]; try done.
    subst. by apply escape_char_None in Ec as [? _].
  - intros [Hl _]. simpl. intros [= -> _]. done.
Qed.

Lemma quoted_body_inj (ps qs : list codepoint) r r' :
  Forall valid_codepoint ps → Forall valid_codepoint qs →
  concat (map quote_codepoint ps) ++ 34 :: r
  = concat (map quote_codepoint qs) ++ 34 :: r' →
  ps = qs ∧ r = r'.
Proof.
  intros Hps. revert qs. induction Hps as [|p ps Hp _ IH]; intros qs Hqs.
  - destruct Hqs as [|q qs Hq _]; simpl.
    + by intros [= ->].
    + rewrite <- app_assoc. intros H. symmetry in H.
      by apply quote_codepoint_open in H.
  - destruct Hqs as [|q qs Hq Hqs]; simpl.
    + rewrite <- app_assoc. intros H. by apply quote_codepoint_open in H.
    + rewrite <- !app_assoc. intros H.
      apply quote_codepoint_inj in H as [-> H]; [|done..].
      apply IH in H as [-> ->]; done.
Qed.

Lemma StringToCodePoints_valid s : Forall valid_codepoint (StringToCodePoints s).
Proof.
  induction s as [s IH] using (induction_ltof1 _ (@length N)).
  unfold ltof in IH.
  destruct s as [|c [|d s]]; simpl; [by constructor..|].
  destruct (is_lead c && is_trail d) eqn:E.
  - constructor; [by apply andb_true_iff in E|]. apply IH. simpl. lia.
  - constructor; [done|]. apply (IH (d :: s)). simpl. lia.
Qed.

Lemma StringToCodePoints_units s :
  concat (map units_of (StringToCodePoints s)) = s.
Proof.
  induction s as [s IH] using (induction_ltof1 _ (@length N)).
  unfold ltof in IH.
  destruct s as [|c [|d s]]; [done..|].
  cbn [StringToCodePoints]. destruct (is_lead c && is_trail d).
  - cbn [map concat units_of app]. f_equal. f_equal. apply IH. simpl. lia.
  - cbn [map concat units_of app]. f_equal. apply (IH (d :: s)). simpl. lia.
Qed.

Lemma QuoteJSONString_inj s s' r r' :
  QuoteJSONString s ++ r = QuoteJSONString s' ++ r' → s = s' ∧ r = r'.
Proof.
  unfold QuoteJSONString. simpl. rewrite <- !app_assoc. simpl.
  intros [= H]. apply quoted_body_inj in H as [H ->];
    [|apply StringToCodePoints_valid..].
  split; [|done].
  rewrite <- (StringToCodePoints_units s), <- (StringToCodePoints_units s').
  by rewrite H.
Qed.

Lemma join_quoted_cons s (l : list jsstr) :
  join [44] (map QuoteJSONString (s :: l)) ++ [93]
  = QuoteJSONString s
      ++ match l with
         | [] => [93]
         | _ => 44 :: join [44] (map QuoteJSONString l) ++ [93]
         end.
Proof. destruct l; [done|]. cbn [map join]. by rewrite <- !app_assoc. Qed.

Lemma QuoteJSONString_head s : ∃ r, QuoteJSONString s = 34 :: r.
Proof. unfold QuoteJSONString. eauto. Qed.

Lemma JSON_stringify_inj (l l' : list jsstr) :
  JSON_stringify l = JSON_stringify l' → l = l'.
Proof.
  unfold JSON_stringify. intros [= H]. revert l' H.
  induction l as [|s l IH]; intros [|s' l'].
  - done.
  - rewrite join_quoted_cons. destruct (QuoteJSONString_head s') as [r ->].
    discriminate.
  - rewrite join_quoted_cons. destruct (QuoteJSONString_head s) as [r ->].
    discriminate.
  - rewrite !join_quoted_cons. intros [-> H]%QuoteJSONString_inj.
    f_equal. destruct l as [|t l], l' as [|t' l']; try done.
    apply IH. by injection H.
Qed.

Lemma stringify_differs_spec (a b : list jsstr) :
  stringify_differs a b = true ↔ a ≠ b.
Proof.
  unfold stringify_differs. rewrite bool_decide_eq_true. split.
  - intros H ->. done.
  - intros H E. by apply JSON_stringify_inj in E.
Qed.

Lemma stringify_differs_refl (a : list jsstr) : stringify_differs a a = false.
Proof.
  destruct (stringify_differs a a) eqn:E; [|done].
  by apply stringify_differs_spec in E.
Qed.
End stringify.

(** ** Rendering *)

Section rendering.
Implicit Types (st : plugin) (fs : list jsstr) (c : nat).

Lemma set_pills_twice c ps ps' st :
  set_pills c ps (set_pills c ps' st) = set_pills c ps st.
Proof. unfold set_pills. simpl. by rewrite insert_insert_eq. Qed.

Lemma set_pills_same c st ps :
  pills st !! c = Some ps → set_pills c ps st = st.
Proof.
  intros H. destruct st. unfold set_pills. simpl in *. f_equal.
  by apply insert_id.
Qed.

Lemma forEach_pill_container fs index st c :
  filtersContainer st = Some c → is_Some (pills st !! c) →
  forEach_pill fs index st
  = Returned (set_pills c (pills_of st c ++ pills_from index fs) st).
Proof.
  revert index st. induction fs as [|f fs IH]; intros index st Hc [ps Hps].
  - simpl. rewrite app_nil_r. unfold pills_of. rewrite Hps. simpl.
    by rewrite set_pills_same.
  - cbn [forEach_pill]. rewrite Hc. rewrite IH.
    + rewrite set_pills_twice. f_equal. f_equal.
      unfold pills_of at 1. simpl. rewrite lookup_insert_eq. simpl.
      by rewrite <- app_assoc.
    + done.
    + simpl. rewrite lookup_insert_eq. eauto.
Qed.

(** With a pills container, a render replaces its children by one
    pill per filter. *)
Lemma renderPills_container st c :
  filtersContainer st = Some c →
  renderPills st
  = Returned (emit Render (set_pills c (pills_from 0 (filters st)) st)).
Proof.
  intros Hc. unfold renderPills. rewrite Hc.
  rewrite (forEach_pill_container _ _ _ c).
  - f_equal. unfold pills_of. simpl. rewrite lookup_insert_eq. simpl.
    unfold set_pills, emit. simpl. by rewrite insert_insert_eq.
  - done.
  - simpl. rewrite lookup_insert_eq. eauto.
Qed.

(** Without one, the first filter makes line 145 read a property of
    [undefined]. *)
Lemma renderPills_undefined st :
  filtersContainer st = None →
  renderPills st
  = if decide (filters st = []) then Returned (emit Render st)
    else Threw (emit Render st).
Proof.
  intros Hc. unfold renderPills. rewrite Hc.
  destruct (filters st) as [|f fs] eqn:E; simpl; [done|]. by rewrite Hc.
Qed.

(** Whatever a render does, it leaves the model and the inputs alone. *)
Lemma renderPills_frame st :
  let st' := state_of (renderPills st) in
  filters st' = filters st ∧ disk st' = disk st ∧ values st' = values st
  ∧ searchInput st' = searchInput st
  ∧ inputListeners st' = inputListeners st
  ∧ filtersContainer st' = filtersContainer st
  ∧ doc st' = doc st
  ∧ existingSecondaryInput st' = existingSecondaryInput st
  ∧ secondaryInput st' = secondaryInput st
  ∧ trace st' = Render :: trace st.
Proof.
  destruct (filtersContainer st) as [c|] eqn:Hc.
  - rewrite (renderPills_container _ c) by done. simpl. tauto.
  - rewrite renderPills_undefined by done.
    destruct (decide (filters st = [])); simpl; tauto.
Qed.
End rendering.

(** ** Reconciliation from the native input *)

Section reconciliation.
Implicit Types (st : plugin) (el : element).

Lemma handleSearchInputChange_same st el :
  searchInput st = Some el → parseFilters (value_of st el) = filters st →
  handleSearchInputChange st = Returned st.
Proof.
  intros Hel Heq. unfold handleSearchInputChange. rewrite Hel, Heq.
  by rewrite stringify_differs_refl.
Qed.

Lemma handleSearchInputChange_differs st el :
  searchInput st = Some el → parseFilters (value_of st el) ≠ filters st →
  handleSearchInputChange st
  = renderPills
      (saveSettings (set_filters (parseFilters (value_of st el)) st)).
Proof.
  intros Hel Hne. unfold handleSearchInputChange. rewrite Hel.
  apply stringify_differs_spec in Hne. by rewrite Hne.
Qed.

Lemma report_frame (o : outcome) :
  filters (report o) = filters (state_of o)
  ∧ disk (report o) = disk (state_of o)
  ∧ values (report o) = values (state_of o)
  ∧ searchInput (report o) = searchInput (state_of o)
  ∧ inputListeners (report o) = inputListeners (state_of o)
  ∧ filtersContainer (report o) = filtersContainer (state_of o)
  ∧ doc (report o) = doc (state_of o)
  ∧ existingSecondaryInput (report o) = existingSecondaryInput (state_of o)
  ∧ secondaryInput (report o) = secondaryInput (state_of o).
Proof. destruct o; simpl; tauto. Qed.

(** A listener run touches neither the inputs nor the references. *)
Lemma reconcile_frame st :
  values (reconcile st) = values st
  ∧ searchInput (reconcile st) = searchInput st
  ∧ inputListeners (reconcile st) = inputListeners st
  ∧ filtersContainer (reconcile st) = filtersContainer st
  ∧ doc (reconcile st) = doc st
  ∧ existingSecondaryInput (reconcile st) = existingSecondaryInput st
  ∧ secondaryInput (reconcile st) = secondaryInput st.
Proof.
  unfold reconcile, handleSearchInputChange.
  destruct (searchInput st) as [el|] eqn:Hel; [|simpl; tauto].
  destruct (stringify_differs _ _); [|simpl; tauto].
  destruct (report_frame
              (renderPills
                 (saveSettings (set_filters (parseFilters (value_of st el)) st))))
    as (_ & _ & -> & -> & -> & -> & -> & -> & ->).
  destruct (renderPills_frame
              (saveSettings (set_filters (parseFilters (value_of st el)) st)))
    as (_ & _ & -> & -> & -> & -> & -> & -> & -> & _).
  simpl. tauto.
Qed.

(** After a listener has run, the list is what the native text parses
    to. *)
Lemma reconcile_filters st el :
  searchInput st = Some el →
  filters (reconcile st) = parseFilters (value_of st el).
Proof.
  intros Hel. unfold reconcile.
  destruct (decide (parseFilters (value_of st el) = filters st)) as [E|E].
  - by rewrite (handleSearchInputChange_same _ el).
  - rewrite (handleSearchInputChange_differs _ el) by done.
    destruct (report_frame
                (renderPills
                   (saveSettings (set_filters (parseFilters (value_of st el)) st))))
      as (-> & _).
    by destruct (renderPills_frame
                   (saveSettings (set_filters (parseFilters (value_of st el)) st)))
      as (-> & _).
Qed.

Lemma reconcile_no_input st : searchInput st = None → reconcile st = st.
Proof.
  intros H. unfold reconcile, handleSearchInputChange. by rewrite H.
Qed.

(** A second listener on the same element finds nothing left to do. *)
Lemma reconcile_idem st : reconcile (reconcile st) = reconcile st.
Proof.
  destruct (searchInput st) as [el|] eqn:Hel.
  - destruct (reconcile_frame st) as (Hv & Hs & _).
    unfold reconcile at 1.
    rewrite (handleSearchInputChange_same _ el); [done|congruence|].
    rewrite (reconcile_filters st el) by done.
    unfold value_of. by rewrite Hv.
  - rewrite (reconcile_no_input st) by done. by apply reconcile_no_input.
Qed.

Lemma run_listeners_S n st : run_listeners (S n) st = reconcile st.
Proof.
  revert st. induction n as [|n IH]; intros st; [done|].
  change (run_listeners (S (S n)) st) with (run_listeners (S n) (reconcile st)).
  by rewrite IH, reconcile_idem.
Qed.

Lemma dispatchInput_listening el st :
  el ∈ inputListeners st →
  dispatchInput el st = reconcile (emit (DispatchInput el) st).
Proof.
  intros Hin. unfold dispatchInput.
  apply list_elem_of_In, (count_occ_In element_eq_dec) in Hin.
  destruct (count_occ element_eq_dec (inputListeners st) el) as [|n] eqn:E;
    [lia|].
  simpl inputListeners. apply run_listeners_S.
Qed.

(** The derived text is written, and the input event brings the list
    back to what that text parses to. *)
Lemma updateSearchQuery_attached st el :
  searchInput st = Some el → listening st →
  updateSearchQuery st
  = emit (ScheduleChange el)
      (reconcile
         (emit (DispatchInput el)
            (set_value el (combinedQuery (filters st)) st))).
Proof.
  intros Hel Hl. unfold updateSearchQuery. rewrite Hel.
  rewrite dispatchInput_listening; [done|]. simpl. by apply Hl.
Qed.

Lemma updateSearchQuery_detached st :
  searchInput st = None → updateSearchQuery st = st.
Proof. intros H. unfold updateSearchQuery. by rewrite H. Qed.

Lemma value_of_set_value st el v : value_of (set_value el v st) el = v.
Proof. unfold value_of. simpl. by rewrite lookup_insert_eq. Qed.

Lemma updateSearchQuery_filters st el :
  searchInput st = Some el → listening st →
  filters (updateSearchQuery st) = parseFilters (combinedQuery (filters st))
  ∧ value_of (updateSearchQuery st) el = combinedQuery (filters st).
Proof.
  intros Hel Hl. rewrite (updateSearchQuery_attached _ el) by done.
  set (st1 := emit (DispatchInput el) (set_value el _ st)).
  assert (searchInput st1 = Some el) as Hel1 by done.
  assert (value_of st1 el = combinedQuery (filters st)) as Hv1.
  { subst st1. unfold value_of. simpl. by rewrite lookup_insert_eq. }
  split.
  - change (filters (emit (ScheduleChange el) (reconcile st1)))
      with (filters (reconcile st1)).
    by rewrite (reconcile_filters _ el), Hv1.
  - unfold value_of in *. simpl.
    destruct (reconcile_frame st1) as (-> & _). done.
Qed.
End reconciliation.

(** ** [trim] is idempotent *)

Section trimming.
Implicit Types (s : jsstr) (a : N).

Lemma trimStart_snoc s a :
  is_ws a = false → trimStart (s ++ [a]) = trimStart s ++ [a].
Proof.
  intros Ha. induction s as [|d s IH]; simpl.
  - by rewrite Ha.
  - by destruct (is_ws d).
Qed.

Lemma trimEnd_cons a s : is_ws a = false → trimEnd (a :: s) = a :: trimEnd s.
Proof.
  intros Ha. unfold trimEnd. simpl. rewrite trimStart_snoc by done.
  by rewrite rev_app_distr.
Qed.

Lemma trimStart_idem s : trimStart (trimStart s) = trimStart s.
Proof.
  destruct (trimStart_head s) as [-> | (a & s' & -> & Ha)]; [done|].
  by apply trimStart_id.
Qed.

Lemma trimEnd_idem s : trimEnd (trimEnd s) = trimEnd s.
Proof. unfold trimEnd. by rewrite rev_involutive, trimStart_idem. Qed.

Lemma trim_idem s : trim (trim s) = trim s.
Proof.
  unfold trim.
  destruct (trimStart_head s) as [-> | (a & s' & -> & Ha)]; [done|].
  rewrite trimEnd_cons by done. rewrite trimStart_id by done.
  rewrite <- trimEnd_cons by done. apply trimEnd_idem.
Qed.

Lemma trim_plain s : trim s ≠ [] → plain_term (trim s).
Proof. intros H. split; [done | apply trim_idem]. Qed.
End trimming.

(** ** The derived query text, written back *)

Section query.
Implicit Types (st : plugin) (el : element) (c : nat).

(** What one listener run leaves, when the pills container exists. *)
Lemma reconcile_container st el c :
  searchInput st = Some el → filtersContainer st = Some c →
  reconcile st
  = if decide (parseFilters (value_of st el) = filters st) then st
    else emit Render
           (set_pills c (pills_from 0 (parseFilters (value_of st el)))
              (saveSettings (set_filters (parseFilters (value_of st el)) st))).
Proof.
  intros Hel Hc. unfold reconcile. case_decide as E.
  - by rewrite (handleSearchInputChange_same _ el).
  - rewrite (handleSearchInputChange_differs _ el) by done.
    by rewrite (renderPills_container _ c).
Qed.

Lemma reconcile_disk st :
  disk st = filters st → disk (reconcile st) = filters (reconcile st).
Proof.
  intros Hd. unfold reconcile, handleSearchInputChange.
  destruct (searchInput st) as [el|]; [|done].
  destruct (stringify_differs _ _); [|done].
  set (st1 := saveSettings _).
  destruct (report_frame (renderPills st1)) as (-> & -> & _).
  by destruct (renderPills_frame st1) as (-> & -> & _).
Qed.

Lemma reconcile_trace st : trace st `suffix_of` trace (reconcile st).
Proof.
  unfold reconcile, handleSearchInputChange.
  destruct (searchInput st) as [el|]; [|done].
  destruct (stringify_differs _ _); [|done].
  set (st1 := saveSettings _).
  pose proof (renderPills_frame st1) as (_ & _ & _ & _ & _ & _ & _ & _ & _ & Ht).
  destruct (renderPills st1) as [st2|st2]; simpl in *; rewrite Ht.
  - by exists [Render; SaveData (filters st1)].
  - by exists [Reported; Render; SaveData (filters st1)].
Qed.

Lemma updateSearchQuery_frame st :
  filtersContainer (updateSearchQuery st) = filtersContainer st
  ∧ searchInput (updateSearchQuery st) = searchInput st
  ∧ inputListeners (updateSearchQuery st) = inputListeners st
  ∧ doc (updateSearchQuery st) = doc st.
Proof.
  unfold updateSearchQuery. destruct (searchInput st) as [el|] eqn:Hel; [|done].
  unfold dispatchInput. simpl.
  generalize (count_occ element_eq_dec (inputListeners st) el).
  set (st1 := emit (DispatchInput el) _).
  change (filtersContainer st) with (filtersContainer st1).
  change (inputListeners st) with (inputListeners st1).
  change (doc st) with (doc st1).
  replace (Some el) with (searchInput st1) by done.
  clearbody st1. intros n. revert st1.
  induction n as [|n IH]; intros st1; [done|].
  cbn [run_listeners]. fold (reconcile st1).
  destruct (IH (reconcile st1)) as (-> & -> & -> & ->).
  destruct (reconcile_frame st1) as (_ & -> & -> & -> & -> & _). done.
Qed.

Lemma updateSearchQuery_disk st :
  disk st = filters st →
  disk (updateSearchQuery st) = filters (updateSearchQuery st).
Proof.
  intros Hd. unfold updateSearchQuery.
  destruct (searchInput st) as [el|]; [|done].
  unfold dispatchInput. simpl.
  generalize (count_occ element_eq_dec (inputListeners st) el).
  set (st1 := emit (DispatchInput el) _).
  assert (disk st1 = filters st1) as Hd1 by done.
  clearbody st1. intros n. revert st1 Hd1.
  induction n as [|n IH]; intros st1 Hd1; [done|].
  cbn [run_listeners]. fold (reconcile st1). apply IH.
  by apply reconcile_disk.
Qed.

Lemma updateSearchQuery_trace st :
  trace st `suffix_of` trace (updateSearchQuery st).
Proof.
  unfold updateSearchQuery. destruct (searchInput st) as [el|]; [|done].
  simpl. apply suffix_cons_r. unfold dispatchInput.
  generalize (count_occ element_eq_dec
                (inputListeners (set_value el (combinedQuery (filters st)) st)) el).
  set (st1 := emit (DispatchInput el) _).
  assert (trace st `suffix_of` trace st1) as Hs by (by apply suffix_cons_r).
  clearbody st1. intros n. revert st1 Hs.
  induction n as [|n IH]; intros st1 Hs; [done|].
  cbn [run_listeners]. fold (reconcile st1). apply IH.
  etrans; [done|]. apply reconcile_trace.
Qed.

(** When the derived text parses back to the list, the input event
    changes nothing: one write, no render. *)
Lemma updateSearchQuery_stable st el :
  searchInput st = Some el → listening st →
  parseFilters (combinedQuery (filters st)) = filters st →
  updateSearchQuery st
  = emit (ScheduleChange el)
      (emit (DispatchInput el)
         (set_value el (combinedQuery (filters st)) st)).
Proof.
  intros Hel Hl Hrt. rewrite (updateSearchQuery_attached _ el) by done.
  f_equal. unfold reconcile.
  rewrite (handleSearchInputChange_same _ el); [done..|].
  change (value_of (emit _ ?s) el) with (value_of s el).
  by rewrite value_of_set_value.
Qed.

Lemma splice1_nat {A} (i : nat) (l : list A) :
  splice1 (Z.of_nat i) l = delete i l.
Proof.
  unfold splice1. destruct (Z.ltb_spec (Z.of_nat i) 0); [lia|].
  destruct (decide (i < length l)%nat).
  - by rewrite Z.min_l, Nat2Z.id by lia.
  - rewrite Z.min_r, Nat2Z.id by lia.
    by rewrite !delete_take_drop, !take_ge, !drop_ge by lia.
Qed.

End query.

(** ** Setup *)

Section setup.
Implicit Types (st : plugin) (d : list node) (n : node).

Lemma insertAfter_length i n d : length (insertAfter i n d) = S (length d).
Proof.
  unfold insertAfter. rewrite length_app. simpl.
  rewrite length_take, length_drop. lia.
Qed.

Lemma insertAfter_elem i n d : n ∈ insertAfter i n d.
Proof. unfold insertAfter. apply elem_of_app. right. left. Qed.

Lemma insertAfter_keeps i n m d : m ∈ d → m ∈ insertAfter i n d.
Proof.
  unfold insertAfter. rewrite <- (take_drop (S i) d) at 1.
  rewrite !elem_of_app. intros [H|H]; [by left | right; by right].
Qed.

Lemma count_pills_insertAfter i n d :
  count_pills (insertAfter i n d)
  = (count_pills d + if is_pills n then 1 else 0)%nat.
Proof.
  unfold count_pills, insertAfter.
  pose proof (take_drop (S i) d) as E. revert E.
  generalize (take (S i) d) (drop (S i) d). intros a b <-.
  rewrite !List.filter_app, !length_app. simpl.
  destruct (is_pills n); simpl; lia.
Qed.

Lemma count_secondary_insertAfter i n d :
  count_secondary (insertAfter i n d)
  = (count_secondary d + if is_secondary n then 1 else 0)%nat.
Proof.
  unfold count_secondary, insertAfter.
  pose proof (take_drop (S i) d) as E. revert E.
  generalize (take (S i) d) (drop (S i) d). intros a b <-.
  rewrite !List.filter_app, !length_app. simpl.
  destruct (is_secondary n); simpl; lia.
Qed.

Lemma tidy_createPillsContainer st : tidy st → tidy (createPillsContainer st).
Proof.
  intros Ht. pose proof Ht as (Hp & Hp0 & Hs & Hs0). unfold createPillsContainer.
  destruct (queryControls (doc st)) as [i|]; [|done].
  destruct (isConnected st) eqn:Hconn; [done|].
  specialize (Hp0 eq_refl).
  unfold tidy, isConnected. simpl.
  rewrite count_pills_insertAfter, count_secondary_insertAfter. simpl.
  rewrite bool_decide_eq_true_2 by apply insertAfter_elem.
  repeat split; try lia; try done.
  intros Hflag. rewrite Nat.add_0_r. by apply Hs0.
Qed.

Lemma tidy_createSecondaryInput st : tidy st → tidy (createSecondaryInput st).
Proof.
  intros Ht. pose proof Ht as (Hp & Hp0 & Hs & Hs0). unfold createSecondaryInput.
  destruct (queryControls (doc st)) as [i|]; [|done].
  destruct (existingSecondaryInput st) eqn:Hflag; [done|].
  specialize (Hs0 eq_refl).
  unfold tidy, isConnected in *. simpl.
  rewrite count_pills_insertAfter, count_secondary_insertAfter. simpl.
  repeat split; try lia; try done.
  intros Hconn. rewrite Nat.add_0_r. apply Hp0.
  destruct (filtersContainer st) as [c|]; [|done].
  apply bool_decide_eq_false in Hconn. apply bool_decide_eq_false.
  intros Hin. apply Hconn. by apply insertAfter_keeps.
Qed.

Lemma tidy_frame st st' :
  doc st' = doc st → filtersContainer st' = filtersContainer st →
  existingSecondaryInput st' = existingSecondaryInput st →
  tidy st → tidy st'.
Proof. unfold tidy, isConnected. intros -> -> ->. done. Qed.

Lemma createPillsContainer_frame st :
  inputListeners (createPillsContainer st) = inputListeners st
  ∧ existingSecondaryInput (createPillsContainer st) = existingSecondaryInput st.
Proof.
  unfold createPillsContainer. destruct (queryControls (doc st)); [|done].
  by destruct (isConnected st).
Qed.

Lemma createSecondaryInput_listeners st :
  inputListeners (createSecondaryInput st) = inputListeners st.
Proof.
  unfold createSecondaryInput. destruct (queryControls (doc st)); [|done].
  by destruct (existingSecondaryInput st).
Qed.

Lemma createSecondaryInput_flag st :
  existingSecondaryInput st = true →
  existingSecondaryInput (createSecondaryInput st) = true.
Proof.
  intros H. unfold createSecondaryInput.
  destruct (queryControls (doc st)); [|done]. by rewrite H.
Qed.

(** After the two creation steps, setup leaves the document, the
    container reference and the flag alone. *)
Lemma initializeComponents_frame st :
  let st' := state_of (initializeComponents st) in
  let created := createSecondaryInput (createPillsContainer st) in
  doc st' = doc created
  ∧ filtersContainer st' = filtersContainer created
  ∧ existingSecondaryInput st' = existingSecondaryInput created
  ∧ searchInput st' = querySearchInput (doc created)
  ∧ inputListeners st'
    = match querySearchInput (doc created) with
      | Some el => el :: inputListeners st
      | None => inputListeners st
      end.
Proof.
  intros st' created. subst st'. unfold initializeComponents.
  fold created.
  set (st1 := initializeMainInput (registerSearchHandlers created)).
  assert (doc st1 = doc created
          ∧ filtersContainer st1 = filtersContainer created
          ∧ existingSecondaryInput st1 = existingSecondaryInput created
          ∧ searchInput st1 = querySearchInput (doc created)
          ∧ inputListeners st1
            = match querySearchInput (doc created) with
              | Some el => el :: inputListeners created
              | None => inputListeners created
              end) as (E1 & E2 & E3 & E4 & E5).
  { subst st1. unfold registerSearchHandlers, registerInputHandler.
    destruct (secondaryInput created); simpl; tauto. }
  assert (inputListeners created = inputListeners st) as E6.
  { subst created. rewrite createSecondaryInput_listeners.
    by destruct (createPillsContainer_frame st) as (-> & _). }
  rewrite E6 in E5. rewrite <- E5, <- E4, <- E3, <- E2, <- E1.
  set (st2 := match searchInput st1 with Some _ => _ | None => _ end).
  assert (doc st2 = doc st1 ∧ filtersContainer st2 = filtersContainer st1
          ∧ existingSecondaryInput st2 = existingSecondaryInput st1
          ∧ searchInput st2 = searchInput st1
          ∧ inputListeners st2 = inputListeners st1) as (<- & <- & <- & <- & <-).
  { subst st2. clearbody st1. destruct (searchInput st1) eqn:Es; [|done].
    destruct (stringify_differs _ _); simpl; repeat split; done. }
  destruct (renderPills_frame st2) as (_ & _ & _ & -> & -> & -> & -> & -> & _).
  done.
Qed.

Lemma tidy_initializeComponents st :
  tidy st → tidy (state_of (initializeComponents st)).
Proof.
  intros H. destruct (initializeComponents_frame st) as (E1 & E2 & E3 & _).
  apply (tidy_frame (createSecondaryInput (createPillsContainer st))); try done.
  by apply tidy_createSecondaryInput, tidy_createPillsContainer.
Qed.

(** Setup always leaves a listener on the input it stored. *)
Lemma listening_initializeComponents st :
  listening (state_of (initializeComponents st)).
Proof.
  destruct (initializeComponents_frame st) as (_ & _ & _ & E4 & E5).
  intros el Hel. rewrite E5. rewrite E4 in Hel. rewrite Hel. left.
Qed.

Lemma loaded_tidy (fs : list jsstr) (d : list node) (vals : gmap element jsstr) :
  count_pills d = 0%nat → count_secondary d = 0%nat → tidy (loaded fs d vals).
Proof. intros Hp Hs. unfold tidy. simpl. rewrite Hp, Hs. repeat split; lia. Qed.

(** X18: without the host's search setting and without any matching
    input, setup creates nothing and attaches nothing; with an empty
    persisted list it returns, having written one console line, and
    with a non-empty one it ends in the exception of [renderPills]. *)
Lemma initializeComponents_no_container
    (fs : list jsstr) (d : list node) (vals : gmap element jsstr) :
  queryControls d = None → querySearchInput d = None →
  initializeComponents (loaded fs d vals)
  = if decide (fs = [])
    then Returned (emit Render (emit ConsoleLog (loaded fs d vals)))
    else Threw (emit Render (emit ConsoleLog (loaded fs d vals))).
Proof.
  intros Hc Hs. unfold initializeComponents, createPillsContainer.
  cbn [doc loaded]. rewrite Hc. unfold createSecondaryInput.
  cbn [doc loaded]. rewrite Hc.
  unfold registerSearchHandlers, initializeMainInput, registerInputHandler.
  cbn [doc emit secondaryInput loaded]. rewrite Hs. cbn [searchInput].
  rewrite renderPills_undefined by done. reflexivity.
Qed.
End setup.

Lemma listening_frame (st st' : plugin) :
  searchInput st' = searchInput st → inputListeners st' = inputListeners st →
  listening st → listening st'.
Proof. unfold listening. intros -> ->. done. Qed.

(** ** The listener stays attached

    Every state the plugin reaches after a setup satisfies [listening]:
    setup establishes it and no method touches [this.searchInput] or the
    listeners afterwards. *)

Section invariant.
Implicit Types (st : plugin).

Lemma listening_loaded (fs : list jsstr) (d : list node) (vals : gmap element jsstr) :
  listening (loaded fs d vals).
Proof. intros el Hel. discriminate. Qed.

Lemma listening_renderPills st :
  listening st → listening (state_of (renderPills st)).
Proof.
  destruct (renderPills_frame st) as (_ & _ & _ & Hs & Hi & _).
  by apply listening_frame.
Qed.

Lemma listening_reconcile st : listening st → listening (reconcile st).
Proof.
  destruct (reconcile_frame st) as (_ & Hs & Hi & _).
  by apply listening_frame.
Qed.

Lemma listening_updateSearchQuery st :
  listening st → listening (updateSearchQuery st).
Proof.
  destruct (updateSearchQuery_frame st) as (_ & Hs & Hi & _).
  by apply listening_frame.
Qed.

Lemma listening_handleNewFilter st (src : option element) :
  listening st → listening (state_of (handleNewFilter src st)).
Proof.
  intros Hl. unfold handleNewFilter.
  destruct (from_option Some (searchInput st) src) as [input|]; [|done].
  destruct (0 <? length (trim (value_of st input)))%nat; [|done].
  apply listening_renderPills, listening_updateSearchQuery.
  by apply (listening_frame st).
Qed.

Lemma listening_removeFilter st (index : Z) :
  listening st → listening (state_of (removeFilter index st)).
Proof.
  intros Hl. unfold removeFilter.
  apply listening_renderPills, listening_updateSearchQuery.
  by apply (listening_frame st).
Qed.

Lemma listening_debouncedCallback st (index : Z) (value : jsstr) :
  listening st → listening (debouncedCallback index value st).
Proof.
  intros Hl. unfold debouncedCallback.
  destruct (_ && _); [|done].
  apply listening_updateSearchQuery. by apply (listening_frame st).
Qed.

Lemma listening_userInput st (el : element) (v : jsstr) :
  listening st → listening (userInput el v st).
Proof.
  intros Hl. unfold userInput.
  generalize (count_occ element_eq_dec (inputListeners st) el).
  assert (listening (set_value el v st)) as H by (by apply (listening_frame st)).
  revert H. generalize (set_value el v st). intros st1 H n. revert st1 H.
  induction n as [|n IH]; intros st1 H; [done|].
  cbn [run_listeners]. fold (reconcile st1). by apply IH, listening_reconcile.
Qed.
End invariant.

(** * The claims *)

(** ** Round trip of the derived query text *)

(** C1, as stated, fails: the term [a   AND   b] is non-empty and
    trimmed, yet its one-element list joins to a text that splits into
    two terms. *)
Lemma roundtrip_plain_fails :
  ¬ (∀ L : list jsstr,
       Forall plain_term L →
       List.filter (λ f, (0 <? length f)%nat)
         (map trim (split delimiter (join delimiter L))) = L).
Proof.
  intros H. specialize (H [u16 "a   AND   b"]).
  assert (Forall plain_term [u16 "a   AND   b"]) as Hp.
  { constructor; [|constructor]. split; [done | reflexivity]. }
  specialize (H Hp). vm_compute in H. discriminate.
Qed.

(** Excluding terms that hold the delimiter is not enough: a term that
    ends in the first six code units of the delimiter merges with the
    separator after it. *)
Lemma roundtrip_needs_suffix_condition :
  ¬ (∀ L : list jsstr,
       Forall plain_term L → Forall (λ e, includes delimiter e = false) L →
       parseFilters (combinedQuery L) = L).
Proof.
  intros H. specialize (H [u16 "a   AND"; u16 "b"]).
  assert (Forall plain_term [u16 "a   AND"; u16 "b"]) as Hp.
  { repeat constructor; done. }
  assert (Forall (λ e, includes delimiter e = false) [u16 "a   AND"; u16 "b"]) as Hi.
  { repeat constructor. }
  specialize (H Hp Hi). vm_compute in H. discriminate.
Qed.

(** C1, amended: for every ordered list L of non-empty, trimmed strings
    none of which holds the delimiter or ends in three spaces followed
    by AND, joining L with the delimiter, splitting the result on it,
    trimming each piece and dropping the empty pieces gives L back. *)
Theorem roundtrip_separable (L : list jsstr) :
  Forall plain_term L → Forall (λ e, separable e = true) L →
  List.filter (λ f, (0 <? length f)%nat)
    (map trim (split delimiter (join delimiter L))) = L.
Proof.
  intros Hplain Hsep. destruct L as [|e L]; [done|].
  change (join delimiter (e :: L)) with (combinedQuery (e :: L)).
  rewrite split_join by done.
  rewrite map_trim_plain by done.
  by apply filter_nonempty_plain.
Qed.

Lemma roundtrip_separable_witness :
  List.filter (λ f, (0 <? length f)%nat)
    (map trim (split delimiter (join delimiter [u16 "tag:#a"; u16 "b  c AND d"])))
  = [u16 "tag:#a"; u16 "b  c AND d"].
Proof.
  apply (roundtrip_separable [u16 "tag:#a"; u16 "b  c AND d"]).
  - repeat constructor; done.
  - repeat constructor.
Defined.

(** ** Reconciliation *)

(** When the pills container exists: once a string [v] is in the
    native search input, the listener splits it on the delimiter, trims
    the pieces and drops the empty ones; when the result is the current
    list nothing changes, and otherwise the result becomes the list, is
    persisted with one write, and the pills are rendered anew from it.
    The text [x   AND   y   AND   ] gives the list [x; y]. *)
Theorem reconcile_from_native_input (st : plugin) (el : element) (c : nat) (v : jsstr) :
  searchInput st = Some el → filtersContainer st = Some c →
  let st1 := set_value el v st in
  let parsed :=
    List.filter (λ f, (0 <? length f)%nat) (map trim (split delimiter v)) in
  (parsed = filters st → handleSearchInputChange st1 = Returned st1)
  ∧ (parsed ≠ filters st →
     ∃ st', handleSearchInputChange st1 = Returned st'
       ∧ filters st' = parsed ∧ disk st' = parsed
       ∧ trace st' = Render :: SaveData parsed :: trace st
       ∧ pills_of st' c = pills_from 0 parsed
       ∧ values st' = values st1)
  ∧ (v = u16 "x   AND   y   AND   " →
     filters (state_of (handleSearchInputChange st1)) = [u16 "x"; u16 "y"]).
Proof.
  intros Hel Hc st1 parsed.
  assert (searchInput st1 = Some el) as Hel1 by done.
  assert (parseFilters (value_of st1 el) = parsed) as Hv.
  { subst st1. by rewrite value_of_set_value. }
  assert (parsed ≠ filters st →
          ∃ st', handleSearchInputChange st1 = Returned st'
            ∧ filters st' = parsed ∧ disk st' = parsed
            ∧ trace st' = Render :: SaveData parsed :: trace st
            ∧ pills_of st' c = pills_from 0 parsed
            ∧ values st' = values st1) as Hdiff.
  { intros Hne. eexists. split.
    - rewrite (handleSearchInputChange_differs _ el); [|done|by rewrite Hv].
      rewrite Hv. by apply (renderPills_container _ c).
    - unfold pills_of. simpl. rewrite lookup_insert_eq. done. }
  split; [|split; [done|]].
  - intros Heq. apply (handleSearchInputChange_same _ el); [done|].
    by rewrite Hv.
  - intros ->. destruct (decide (parsed = filters st)) as [E|E].
    + rewrite (handleSearchInputChange_same _ el); [|done|by rewrite Hv].
      simpl. by rewrite <- E.
    + destruct (Hdiff E) as (st' & Hr & Hf & _). rewrite Hr. simpl.
      by rewrite Hf.
Qed.

Lemma reconcile_from_native_input_witness :
  filters
    (state_of
       (handleSearchInputChange
          (set_value (Native 0) (u16 "x   AND   y   AND   ") ready)))
  = [u16 "x"; u16 "y"].
Proof.
  refine (proj2 (proj2 (reconcile_from_native_input ready (Native 0) 0%nat
                          (u16 "x   AND   y   AND   ") _ _)) eq_refl);
    vm_compute; reflexivity.
Defined.

(** C2 fails on the code where setup found the search input but not the
    host's search setting: the listener of line 112 is attached and
    [this.filtersContainer] is undefined.  The text
    [x   AND   y   AND   ] is parsed, adopted and persisted, and then
    line 145 throws: no pill is rendered.  Line 143 guards the missing
    container with [?.], line 145 does not. *)
Theorem reconcile_without_container_throws :
  let st := set_value (Native 0) (u16 "x   AND   y   AND   ") bare in
  searchInput st = Some (Native 0)
  ∧ Native 0 ∈ inputListeners st
  ∧ filtersContainer st = None
  ∧ ∃ st', handleSearchInputChange st = Threw st'
      ∧ filters st' = [u16 "x"; u16 "y"]
      ∧ disk st' = [u16 "x"; u16 "y"]
      ∧ pills st' = ∅
      ∧ trace st' = Render :: SaveData [u16 "x"; u16 "y"] :: trace st.
Proof.
  vm_compute. split; [reflexivity|]. split; [left|]. split; [reflexivity|].
  eexists. split; [reflexivity|]. repeat split.
Qed.

(** ** Appending a filter *)

(** C3, as stated, fails: with the native input attached, committing the
    text [a   AND   b] does not leave that string at the end of the
    list; the input event raised by writing the derived text splits it
    in two. *)
Lemma append_delimiter_text_resplit :
  let st := set_value (Created 1) (u16 "a   AND   b") ready in
  let st' := state_of (handleNewFilter (Some (Created 1)) st) in
  trim (value_of st (Created 1)) = u16 "a   AND   b"
  ∧ filters st' ≠ filters st ++ [u16 "a   AND   b"]
  ∧ disk st' ≠ filters st ++ [u16 "a   AND   b"]
  ∧ filters st' = [u16 "a"; u16 "b"].
Proof. vm_compute. repeat split; discriminate. Qed.

(** C3, amended: append trims the text of the input; an empty trimmed
    text changes nothing; otherwise the trimmed text is pushed onto the
    end of the list, that list is persisted and, when the native input
    is attached, its join with the delimiter is written there.  The
    input event this raises reconciles the list from that text: the
    list ends as the pushed list whenever its entries are non-empty,
    trimmed and separable, and as the parse of the derived text in
    general; the final list is what is persisted and rendered. *)
Theorem handleNewFilter_appends (st : plugin) (src : element) (c : nat) :
  listening st → filtersContainer st = Some c →
  let t := trim (value_of st src) in
  let L := filters st ++ [t] in
  (t = [] → handleNewFilter (Some src) st = Returned st)
  ∧ (t ≠ [] →
     ∃ st', handleNewFilter (Some src) st = Returned st'
       ∧ SaveData L ∈ trace st'
       ∧ disk st' = filters st'
       ∧ pills_of st' c = pills_from 0 (filters st')
       ∧ (searchInput st = None → filters st' = L)
       ∧ (∀ el, searchInput st = Some el →
            value_of st' el = join delimiter L
            ∧ filters st' = parseFilters (join delimiter L))
       ∧ (Forall plain_term (filters st) →
          Forall (λ e, separable e = true) L → filters st' = L)).
Proof.
  intros Hl Hc t L. split.
  { intros Ht. unfold handleNewFilter. simpl. fold t. by rewrite Ht. }
  intros Ht.
  set (stA := saveSettings (set_value src [] (set_filters L st))).
  set (stB := updateSearchQuery stA).
  assert (handleNewFilter (Some src) st = renderPills stB) as ->.
  { unfold handleNewFilter. simpl. fold t.
    destruct t; [done|]. done. }
  assert (listening stA) as HlA by (by apply (listening_frame st)).
  destruct (updateSearchQuery_frame stA) as (HcB & HsB & _).
  fold stB in HcB, HsB.
  rewrite (renderPills_container stB c) by (by rewrite HcB).
  eexists. split; [done|]. simpl.
  assert (∀ el, searchInput st = Some el →
            value_of stB el = join delimiter L
            ∧ filters stB = parseFilters (join delimiter L)) as Hatt.
  { intros el Hel.
    destruct (updateSearchQuery_filters stA el) as [Hf Hv]; [done..|].
    done. }
  assert (searchInput st = None → filters stB = L) as Hdet.
  { intros Hel. subst stB. by rewrite updateSearchQuery_detached. }
  split; [|split; [|split; [|split; [|split]]]].
  - right. apply (elem_of_suffix (trace stA)).
    + change (trace stA) with (SaveData L :: trace st). left.
    + apply updateSearchQuery_trace.
  - by apply updateSearchQuery_disk.
  - unfold pills_of. simpl. by rewrite lookup_insert_eq.
  - done.
  - done.
  - intros Hp Hs.
    destruct (searchInput st) as [el|] eqn:Hel; [|by apply Hdet].
    destruct (Hatt el eq_refl) as [_ ->].
    apply parse_combined; [|done].
    apply Forall_app. split; [done|].
    constructor; [|done]. by apply trim_plain.
Qed.

Lemma handleNewFilter_appends_witness :
  let st := set_value (Created 1) (u16 " b ") ready_a in
  ∃ st', handleNewFilter (Some (Created 1)) st = Returned st'
    ∧ filters st' = [u16 "a"; u16 "b"]
    ∧ value_of st' (Native 0) = u16 "a   AND   b".
Proof.
  intros st.
  assert (listening st) as Hl.
  { intros el Hel. vm_compute in Hel. injection Hel as <-.
    vm_compute. left. }
  assert (filtersContainer st = Some 0%nat) as Hc by (vm_compute; reflexivity).
  assert (searchInput st = Some (Native 0)) as Hs by (vm_compute; reflexivity).
  assert (trim (value_of st (Created 1)) ≠ []) as Ht.
  { vm_compute. discriminate. }
  destruct (proj2 (handleNewFilter_appends st (Created 1) 0%nat Hl Hc) Ht)
    as (st' & Hr & _ & _ & _ & _ & Hatt & _).
  exists st'. split; [exact Hr|].
  destruct (Hatt (Native 0) Hs) as [Hv Hf].
  split.
  - etrans; [exact Hf|]. vm_compute. reflexivity.
  - etrans; [exact Hv|]. vm_compute. reflexivity.
Defined.

(** ** Removing a filter *)

(** C4, as stated, fails: the list [x   AND; y; z] is what the native
    text (with a tab after the first AND) parses to; removing its last
    entry persists [x   AND; y], but the derived text of that list
    splits differently, and the list ends as [x; AND   y]. *)
Lemma remove_leaves_resplit_list :
  let st' := state_of (removeFilter 2 ready_xyz) in
  filters ready_xyz = [u16 "x   AND"; u16 "y"; u16 "z"]
  ∧ filters st' ≠ [u16 "x   AND"; u16 "y"]
  ∧ disk st' ≠ [u16 "x   AND"; u16 "y"]
  ∧ filters st' = [u16 "x"; u16 "AND   y"].
Proof. vm_compute. repeat split; discriminate. Qed.

(** C4, amended: for every list and every position, removeAt deletes
    the entry at that position (none when the position is past the
    end), persists the remaining list and, when the native input is
    attached, writes the join of the remaining entries there.  The input
    event this raises reconciles the list from that text: the list ends
    as the remaining entries whenever they are non-empty, trimmed and
    separable, and as the parse of the derived text in general; the
    final list is what is persisted and rendered. *)
Theorem removeFilter_deletes (st : plugin) (i : nat) (c : nat) :
  listening st → filtersContainer st = Some c →
  let L := delete i (filters st) in
  ∃ st', removeFilter (Z.of_nat i) st = Returned st'
    ∧ SaveData L ∈ trace st'
    ∧ disk st' = filters st'
    ∧ pills_of st' c = pills_from 0 (filters st')
    ∧ (searchInput st = None → filters st' = L)
    ∧ (∀ el, searchInput st = Some el →
         value_of st' el = join delimiter L
         ∧ filters st' = parseFilters (join delimiter L))
    ∧ (Forall plain_term (filters st) →
       Forall (λ e, separable e = true) (filters st) → filters st' = L).
Proof.
  intros Hl Hc L.
  set (stA := saveSettings (set_filters L st)).
  set (stB := updateSearchQuery stA).
  assert (removeFilter (Z.of_nat i) st = renderPills stB) as ->.
  { unfold removeFilter. by rewrite splice1_nat. }
  assert (listening stA) as HlA by (by apply (listening_frame st)).
  destruct (updateSearchQuery_frame stA) as (HcB & _).
  fold stB in HcB.
  rewrite (renderPills_container stB c) by (by rewrite HcB).
  eexists. split; [done|]. simpl.
  assert (∀ el, searchInput st = Some el →
            value_of stB el = join delimiter L
            ∧ filters stB = parseFilters (join delimiter L)) as Hatt.
  { intros el Hel.
    by destruct (updateSearchQuery_filters stA el) as [Hf Hv]. }
  assert (searchInput st = None → filters stB = L) as Hdet.
  { intros Hel. subst stB. by rewrite updateSearchQuery_detached. }
  split; [|split; [|split; [|split; [|split]]]].
  - right. apply (elem_of_suffix (trace stA)).
    + change (trace stA) with (SaveData L :: trace st). left.
    + apply updateSearchQuery_trace.
  - by apply updateSearchQuery_disk.
  - unfold pills_of. simpl. by rewrite lookup_insert_eq.
  - done.
  - done.
  - intros Hp Hs.
    destruct (searchInput st) as [el|] eqn:Hel; [|by apply Hdet].
    destruct (Hatt el eq_refl) as [_ ->].
    apply parse_combined; by apply Forall_delete.
Qed.

Lemma removeFilter_deletes_witness :
  ∃ st', removeFilter 1 ready_abc = Returned st'
    ∧ filters st' = [u16 "a"; u16 "c"]
    ∧ value_of st' (Native 0) = u16 "a   AND   c".
Proof.
  assert (listening ready_abc) as Hl.
  { intros el Hel. vm_compute in Hel. injection Hel as <-.
    vm_compute. left. }
  assert (filtersContainer ready_abc = Some 0%nat) as Hc
    by (vm_compute; reflexivity).
  assert (searchInput ready_abc = Some (Native 0)) as Hs
    by (vm_compute; reflexivity).
  destruct (removeFilter_deletes ready_abc 1 0 Hl Hc)
    as (st' & Hr & _ & _ & _ & _ & Hatt & _).
  exists st'. split; [exact Hr|].
  destruct (Hatt (Native 0) Hs) as [Hv Hf].
  split.
  - etrans; [exact Hf|]. vm_compute. reflexivity.
  - etrans; [exact Hv|]. vm_compute. reflexivity.
Defined.

(** ** Editing a filter *)

(** C9: a fired edit whose index is out of bounds changes nothing, the
    list, the persisted state and the text of every input included. *)
Theorem edit_out_of_bounds (st : plugin) (index : Z) (value : jsstr) :
  (index < 0 ∨ Z.of_nat (length (filters st)) ≤ index)%Z →
  debouncedCallback index value st = st.
Proof.
  intros H. unfold debouncedCallback.
  destruct (Z.leb_spec 0 index); [|done].
  destruct (Z.ltb_spec index (Z.of_nat (length (filters st)))); [lia|done].
Qed.

Lemma edit_out_of_bounds_witness :
  debouncedCallback 2 (u16 "late") ready_ab = ready_ab.
Proof.
  apply (edit_out_of_bounds ready_ab 2 (u16 "late")).
  right. vm_compute. discriminate.
Defined.

(** X14: a fired edit within bounds whose derived text parses back to
    the edited list stores the trimmed text at its index, costs one
    write of the settings and one input event, and renders nothing: the
    pills are left as they are. *)
Lemma edit_fires_quietly (st : plugin) (i : nat) (value : jsstr) (el : element) :
  listening st → searchInput st = Some el →
  (i < length (filters st))%nat →
  let L := <[i := trim value]> (filters st) in
  parseFilters (combinedQuery L) = L →
  let st' := debouncedCallback (Z.of_nat i) value st in
  filters st' = L ∧ disk st' = L
  ∧ value_of st' el = combinedQuery L
  ∧ pills st' = pills st
  ∧ trace st' = ScheduleChange el :: DispatchInput el :: SaveData L :: trace st.
Proof.
  intros Hl Hel Hi L Hrt st'. subst st'. unfold debouncedCallback.
  destruct (Z.leb_spec 0 (Z.of_nat i)); [|lia].
  destruct (Z.ltb_spec (Z.of_nat i) (Z.of_nat (length (filters st)))); [|lia].
  simpl. rewrite Nat2Z.id. fold L.
  rewrite (updateSearchQuery_stable _ el); [|done|by apply (listening_frame st)|done].
  simpl. unfold value_of. simpl. by rewrite lookup_insert_eq.
Qed.

(** C10, as stated, fails: with the native input attached, an edit of
    the second of two filters to blanks does not leave an empty entry
    in the list; the entry is gone and every entry left is non-empty. *)
Lemma edit_to_blank_drops_entry :
  let st' := debouncedCallback 1 (u16 "   ") ready_ab in
  filters ready_ab = [u16 "a"; u16 "b"]
  ∧ filters st' = [u16 "a"]
  ∧ filters st' ≠ [u16 "a"; []]
  ∧ Forall (λ f, f ≠ []) (filters st').
Proof.
  vm_compute. split; [done|]. split; [done|]. split; [discriminate|].
  repeat constructor. discriminate.
Qed.

(** C10, amended: for every in-bounds index, an edit whose text trims
    to the empty string stores the empty string at that index and
    persists the list that holds it.  Without a native search input the
    empty entry stays, so the list no longer has only non-empty entries.
    With the native input attached, the input event raised by writing
    the derived text reconciles the list: the empty entry is dropped,
    the list is persisted again and the pills are rendered anew, and
    every entry of the final list is non-empty; when the entries were
    non-empty, trimmed and separable, the final list is the old one
    without the edited entry. *)
Theorem edit_to_empty (st : plugin) (i : nat) (text : jsstr) :
  listening st → trim text = [] → (i < length (filters st))%nat →
  let L := <[i := []]> (filters st) in
  let st' := debouncedCallback (Z.of_nat i) text st in
  L !! i = Some []
  ∧ SaveData L ∈ trace st'
  ∧ (searchInput st = None →
     filters st' = L ∧ disk st' = L ∧ ¬ Forall (λ f, f ≠ []) (filters st'))
  ∧ (∀ el c, searchInput st = Some el → filtersContainer st = Some c →
       filters st' = parseFilters (join delimiter L)
       ∧ Forall (λ f, f ≠ []) (filters st')
       ∧ disk st' = filters st'
       ∧ pills_of st' c = pills_from 0 (filters st')
       ∧ trace st'
         = ScheduleChange el :: Render :: SaveData (filters st')
             :: DispatchInput el :: SaveData L :: trace st
       ∧ (Forall plain_term (filters st) →
          Forall (λ e, separable e = true) (filters st) →
          filters st' = delete i (filters st))).
Proof.
  intros Hl Ht Hi L st'.
  assert (L !! i = Some []) as HLi by (by apply list_lookup_insert_eq).
  set (stA := saveSettings (set_filters L st)).
  assert (st' = updateSearchQuery stA) as ->.
  { subst st'. unfold debouncedCallback.
    destruct (Z.leb_spec 0 (Z.of_nat i)); [|lia].
    destruct (Z.ltb_spec (Z.of_nat i) (Z.of_nat (length (filters st)))); [|lia].
    simpl. by rewrite Nat2Z.id, Ht. }
  assert (listening stA) as HlA by (by apply (listening_frame st)).
  split; [done|]. split; [|split].
  - apply (elem_of_suffix (trace stA)).
    + change (trace stA) with (SaveData L :: trace st). left.
    + apply updateSearchQuery_trace.
  - intros Hel. rewrite updateSearchQuery_detached by done.
    split; [done|]. split; [done|].
    intros Hall. change (filters stA) with L in Hall.
    rewrite Forall_lookup in Hall. by apply (Hall i []).
  - intros el c Hel Hc.
    assert (parseFilters (join delimiter L) ≠ L) as Hne.
    { intros E. pose proof (parseFilters_nonempty (join delimiter L)) as Hall.
      rewrite E, Forall_lookup in Hall. by apply (Hall i []). }
    rewrite (updateSearchQuery_attached _ el) by done.
    set (st1 := emit (DispatchInput el) (set_value el _ stA)).
    assert (value_of st1 el = join delimiter L) as Hv.
    { subst st1. change (value_of (emit _ ?s) el) with (value_of s el).
      by rewrite value_of_set_value. }
    rewrite (reconcile_container st1 el c) by done.
    rewrite Hv. change (filters st1) with L.
    rewrite decide_False by done. simpl.
    split; [done|]. split; [apply parseFilters_nonempty|].
    split; [done|]. split; [|split; [done|]].
    + unfold pills_of. simpl. by rewrite lookup_insert_eq.
    + intros Hp Hs. fold (combinedQuery L).
      rewrite parse_combined_loose.
      * apply filter_blanked. eapply Forall_impl; [exact Hp|]. by intros e [? _].
      * apply Forall_insert; [|by left].
        apply Forall_forall. intros e He. right.
        rewrite Forall_forall in Hp, Hs. split; [by apply Hp | by apply Hs].
Qed.

Lemma edit_to_empty_witness :
  let st' := debouncedCallback 1 (u16 "   ") ready_ab in
  filters st' = [u16 "a"] ∧ disk st' = [u16 "a"].
Proof.
  intros st'.
  assert (listening ready_ab) as Hl.
  { intros el Hel. vm_compute in Hel. injection Hel as <-.
    vm_compute. left. }
  assert (trim (u16 "   ") = []) as Ht by (vm_compute; reflexivity).
  assert (1 < length (filters ready_ab))%nat as Hi by (vm_compute; lia).
  assert (searchInput ready_ab = Some (Native 0)) as Hs
    by (vm_compute; reflexivity).
  assert (filtersContainer ready_ab = Some 0%nat) as Hc
    by (vm_compute; reflexivity).
  destruct (edit_to_empty ready_ab 1 (u16 "   ") Hl Ht Hi)
    as (_ & _ & _ & Hatt).
  destruct (Hatt (Native 0) 0%nat Hs Hc) as (Hf & _ & Hd & _).
  change (debouncedCallback (Z.of_nat 1) (u16 "   ") ready_ab) with st' in Hf, Hd.
  assert (filters st' = [u16 "a"]) as Hf'.
  { etrans; [exact Hf|]. vm_compute. reflexivity. }
  split; [exact Hf'|]. etrans; [exact Hd|]. exact Hf'.
Defined.

(** ** The debounced edit *)

(** A fired edit at an index within bounds, with the native input
    attached and the pills container present: the trimmed text is
    stored and persisted and the derived text written; then either that
    text parses back to the list and nothing more happens, or the input
    event reconciles the list, with a second write and a render. *)
Lemma fired_edit_cases (st : plugin) (i : nat) (v : jsstr) (el : element) (c : nat) :
  listening st → searchInput st = Some el → filtersContainer st = Some c →
  (i < length (filters st))%nat →
  let L := <[i := trim v]> (filters st) in
  let st' := debouncedCallback (Z.of_nat i) v st in
  value_of st' el = combinedQuery L
  ∧ (parseFilters (combinedQuery L) = L →
     filters st' = L ∧ disk st' = L ∧ pills st' = pills st
     ∧ trace st'
       = ScheduleChange el :: DispatchInput el :: SaveData L :: trace st)
  ∧ (parseFilters (combinedQuery L) ≠ L →
     filters st' = parseFilters (combinedQuery L)
     ∧ disk st' = parseFilters (combinedQuery L)
     ∧ pills_of st' c = pills_from 0 (parseFilters (combinedQuery L))
     ∧ trace st'
       = ScheduleChange el :: Render
           :: SaveData (parseFilters (combinedQuery L))
           :: DispatchInput el :: SaveData L :: trace st).
Proof.
  intros Hl Hel Hc Hi L st'.
  set (stA := saveSettings (set_filters L st)).
  assert (st' = updateSearchQuery stA) as ->.
  { subst st'. unfold debouncedCallback.
    destruct (Z.leb_spec 0 (Z.of_nat i)); [|lia].
    destruct (Z.ltb_spec (Z.of_nat i) (Z.of_nat (length (filters st)))); [|lia].
    simpl. by rewrite Nat2Z.id. }
  assert (listening stA) as HlA by (by apply (listening_frame st)).
  split; [by destruct (updateSearchQuery_filters stA el)|]. split.
  - intros Hrt. rewrite (updateSearchQuery_stable stA el) by done. done.
  - intros Hne. rewrite (updateSearchQuery_attached _ el) by done.
    set (st1 := emit (DispatchInput el) (set_value el _ stA)).
    assert (value_of st1 el = combinedQuery L) as Hv.
    { subst st1. change (value_of (emit _ ?s) el) with (value_of s el).
      by rewrite value_of_set_value. }
    rewrite (reconcile_container st1 el c) by done.
    rewrite Hv. change (filters st1) with L.
    rewrite decide_False by done. simpl.
    repeat split. unfold pills_of. simpl. by rewrite lookup_insert_eq.
Qed.

Lemma debouncedCallback_trace (st : plugin) (index : Z) (value : jsstr) :
  trace st `suffix_of` trace (debouncedCallback index value st).
Proof.
  unfold debouncedCallback. destruct (_ && _); [|done].
  etrans; [|apply updateSearchQuery_trace]. by apply suffix_cons_r.
Qed.

(** C7, as stated, fails.  Three edits of index 0 within 300 ms, the
    last one blank: under the trailing reading the one firing persists
    twice, first the list with the blank entry and then the reconciled
    list, and renders the pills.  Three edits to [a1], [a2], [a3]: under
    the leading-edge reading the first persisted write holds [a1], and
    a second write follows. *)
Lemma burst_is_not_one_quiet_write :
  let blank :=
    [ {| call_time := 0; call_index := 0; call_value := u16 "a1" |};
      {| call_time := 100; call_index := 0; call_value := u16 "a2" |};
      {| call_time := 200; call_index := 0; call_value := u16 "   " |} ] in
  let plain :=
    [ {| call_time := 0; call_index := 0; call_value := u16 "a1" |};
      {| call_time := 100; call_index := 0; call_value := u16 "a2" |};
      {| call_time := 200; call_index := 0; call_value := u16 "a3" |} ] in
  trace (settle (run_calls Trailing 300 blank (idle, ready_ab)))
  = ScheduleChange (Native 0) :: Render :: SaveData [u16 "b"]
      :: DispatchInput (Native 0) :: SaveData [[]; u16 "b"]
      :: trace ready_ab
  ∧ trace (settle (run_calls Leading 300 plain (idle, ready_ab)))
    = ScheduleChange (Native 0) :: DispatchInput (Native 0)
        :: SaveData [u16 "a3"; u16 "b"]
        :: ScheduleChange (Native 0) :: DispatchInput (Native 0)
        :: SaveData [u16 "a1"; u16 "b"]
        :: trace ready_ab.
Proof. vm_compute. split; reflexivity. Qed.

(** C7, amended: the edit goes through a debounce of 300 ms.  Read as
    a timer that every call re-arms, three edits of index 0 within the
    window end in one firing, which carries the last value; read as
    leading-edge, the first edit fires at once, so the first write
    holds the first value.  The fired edit, at an index within bounds,
    trims the text, stores it at the index, persists the list and
    writes the derived query text into the native input.  When the
    edited list parses back from that text, this is exactly one write,
    holding the last value, and the pills are not rendered; when it
    does not, the input event reconciles the list, which is persisted a
    second time, and the pills are rendered anew. *)
Theorem debounced_edit_burst (st : plugin) (el : element) (c : nat)
    (t1 t2 t3 : nat) (v1 v2 v3 : jsstr) :
  listening st → searchInput st = Some el → filtersContainer st = Some c →
  filters st ≠ [] →
  (t1 ≤ t2 ∧ t2 ≤ t3 ∧ t3 < t1 + 300)%nat →
  let burst :=
    [ {| call_time := t1; call_index := 0; call_value := v1 |};
      {| call_time := t2; call_index := 0; call_value := v2 |};
      {| call_time := t3; call_index := 0; call_value := v3 |} ] in
  let L := <[0%nat := trim v3]> (filters st) in
  let st' := settle (run_calls Trailing 300 burst (idle, st)) in
  st' = debouncedCallback 0 v3 st
  ∧ value_of st' el = join delimiter L
  ∧ (parseFilters (join delimiter L) = L →
     filters st' = L ∧ disk st' = L ∧ pills st' = pills st
     ∧ trace st'
       = ScheduleChange el :: DispatchInput el :: SaveData L :: trace st)
  ∧ (parseFilters (join delimiter L) ≠ L →
     filters st' = parseFilters (join delimiter L)
     ∧ disk st' = parseFilters (join delimiter L)
     ∧ pills_of st' c = pills_from 0 (parseFilters (join delimiter L))
     ∧ trace st'
       = ScheduleChange el :: Render
           :: SaveData (parseFilters (join delimiter L))
           :: DispatchInput el :: SaveData L :: trace st)
  ∧ (∃ later,
       trace (settle (run_calls Leading 300 burst (idle, st)))
       = later ++ SaveData (<[0%nat := trim v1]> (filters st)) :: trace st).
Proof.
  intros Hl Hel Hc Hne (H12 & H23 & H31) burst L st'.
  assert (0 < length (filters st))%nat as Hi.
  { destruct (filters st); [done | simpl; lia]. }
  assert (st' = debouncedCallback 0 v3 st) as E.
  { subst st' burst. unfold run_calls, settle, debouncedUpdate, elapse. simpl.
    destruct (Nat.leb_spec (t1 + 300) t2); [lia|]. simpl.
    destruct (Nat.leb_spec (t2 + 300) t3); [lia|]. done. }
  split; [done|]. rewrite E.
  destruct (fired_edit_cases st 0 v3 el c Hl Hel Hc Hi) as (Hv & Hsame & Hdiff).
  split; [done|]. split; [done|]. split; [done|].
  assert (settle (run_calls Leading 300 burst (idle, st))
          = debouncedCallback 0 v3 (debouncedCallback 0 v1 st)) as ->.
  { subst burst. unfold run_calls, settle, debouncedUpdate, elapse. simpl.
    destruct (Nat.leb_spec (t1 + 300) t2); [lia|]. simpl.
    destruct (Nat.leb_spec (t1 + 300) t3); [lia|]. done. }
  destruct (debouncedCallback_trace (debouncedCallback 0 v1 st) 0 v3) as [k2 ->].
  assert (∃ k1, trace (debouncedCallback 0 v1 st)
                = k1 ++ SaveData (<[0%nat := trim v1]> (filters st)) :: trace st)
    as [k1 ->].
  { unfold debouncedCallback.
    destruct (Z.ltb_spec 0 (Z.of_nat (length (filters st)))); [|lia]. simpl.
    apply (updateSearchQuery_trace
             (saveSettings (set_filters (<[0%nat := trim v1]> (filters st)) st))). }
  exists (k2 ++ k1). by rewrite <- app_assoc.
Qed.

Lemma debounced_edit_burst_witness :
  let burst :=
    [ {| call_time := 0; call_index := 0; call_value := u16 "a1" |};
      {| call_time := 100; call_index := 0; call_value := u16 "a2" |};
      {| call_time := 200; call_index := 0; call_value := u16 " a3 " |} ] in
  let st' := settle (run_calls Trailing 300 burst (idle, ready_ab)) in
  filters st' = [u16 "a3"; u16 "b"]
  ∧ trace st'
    = ScheduleChange (Native 0) :: DispatchInput (Native 0)
        :: SaveData [u16 "a3"; u16 "b"] :: trace ready_ab.
Proof.
  intros burst st'.
  assert (listening ready_ab) as Hl.
  { intros el Hel. vm_compute in Hel. injection Hel as <-. vm_compute. left. }
  assert (searchInput ready_ab = Some (Native 0)) as Hs
    by (vm_compute; reflexivity).
  assert (filtersContainer ready_ab = Some 0%nat) as Hc
    by (vm_compute; reflexivity).
  assert (filters ready_ab ≠ []) as Hne by (vm_compute; discriminate).
  assert (0 ≤ 100 ∧ 100 ≤ 200 ∧ 200 < 0 + 300)%nat as Ht by lia.
  destruct (debounced_edit_burst ready_ab (Native 0) 0%nat 0 100 200
              (u16 "a1") (u16 "a2") (u16 " a3 ") Hl Hs Hc Hne Ht)
    as (_ & _ & Hsame & _).
  assert (parseFilters
            (join delimiter (<[0%nat := trim (u16 " a3 ")]> (filters ready_ab)))
          = <[0%nat := trim (u16 " a3 ")]> (filters ready_ab)) as Hrt
    by (vm_compute; reflexivity).
  destruct (Hsame Hrt) as (Hf & _ & _ & Htr).
  split.
  - etrans; [exact Hf|]. vm_compute. reflexivity.
  - etrans; [exact Htr|]. vm_compute. reflexivity.
Defined.

(** ** Setup and its guards *)

(** C6 fails on the code: with one persisted filter and a document
    without the graph controls, the search setting is not found and
    activating the bookmarks view makes setup throw.  Line 143 guards
    [this.filtersContainer] with [?.], line 145 does not. *)
Theorem setup_without_container_throws :
  queryControls [] = None
  ∧ onActiveLeafChange (Some "bookmarks"%string) (loaded [u16 "a"] [] ∅)
    = Threw (emit Render (emit ConsoleLog (emit ConsoleLog (loaded [u16 "a"] [] ∅)))).
Proof. split; reflexivity. Qed.

(** C5 fails on the code for the secondary input: the plugin was set
    up once and the host has replaced the panel since.  No secondary
    input is attached, the host's search setting is found, and still
    none is created, in [createSecondaryInput] alone or in a whole
    setup: line 50 tests a flag that is never reset.  The sibling
    [createPillsContainer] tests [isConnected] and creates its element
    anew. *)
Lemma secondary_guard_ignores_attachment :
  let st := set_doc [HostSearchSetting (Some 1%nat)] ready in
  queryControls (doc st) = Some 0%nat
  ∧ secondaryAttached st = false
  ∧ doc (createSecondaryInput st) = doc st
  ∧ count_secondary (doc (state_of (initializeComponents st))) = 0%nat
  ∧ count_pills (doc (state_of (initializeComponents st))) = 1%nat.
Proof. vm_compute. repeat split. Qed.

(** The guards as written: the pills container is created exactly when
    the host's search setting is found and [this.filtersContainer] is
    not a connected element; the secondary input is created exactly
    when the search setting is found and the flag
    [existingSecondaryInput] is unset, and the flag is never reset.
    From a tidy state, two setups in succession leave at most one pills
    container and at most one secondary input. *)
Theorem setup_creates_once (st : plugin) :
  (doc (createPillsContainer st) ≠ doc st
   ↔ queryControls (doc st) ≠ None ∧ isConnected st = false)
  ∧ (doc (createSecondaryInput st) ≠ doc st
     ↔ queryControls (doc st) ≠ None ∧ existingSecondaryInput st = false)
  ∧ (existingSecondaryInput st = true →
     existingSecondaryInput (state_of (initializeComponents st)) = true)
  ∧ (tidy st →
     let st2 :=
       state_of (initializeComponents (state_of (initializeComponents st))) in
     (count_pills (doc st2) ≤ 1)%nat ∧ (count_secondary (doc st2) ≤ 1)%nat).
Proof.
  assert (∀ i n d, insertAfter i n d ≠ d) as Hgrow.
  { intros i n d E. apply (f_equal length) in E.
    rewrite insertAfter_length in E. lia. }
  split; [|split; [|split]].
  - unfold createPillsContainer.
    destruct (queryControls (doc st)) as [i|]; [|by split; [|intros []]].
    destruct (isConnected st); simpl; [by split; [|intros []]|].
    split; [done|]. intros _. apply Hgrow.
  - unfold createSecondaryInput.
    destruct (queryControls (doc st)) as [i|]; [|by split; [|intros []]].
    destruct (existingSecondaryInput st); simpl; [by split; [|intros []]|].
    split; [done|]. intros _. apply Hgrow.
  - intros Hflag.
    destruct (initializeComponents_frame st) as (_ & _ & -> & _).
    apply createSecondaryInput_flag.
    by destruct (createPillsContainer_frame st) as (_ & ->).
  - intros Htidy st2.
    assert (tidy st2) as (Hp & _ & Hs & _)
      by (by do 2 apply tidy_initializeComponents).
    done.
Qed.

Lemma setup_creates_once_witness :
  let st2 :=
    state_of
      (initializeComponents
         (state_of
            (initializeComponents
               (loaded [] [HostSearchSetting (Some 0%nat)] ∅)))) in
  (count_pills (doc st2) ≤ 1)%nat ∧ (count_secondary (doc st2) ≤ 1)%nat.
Proof.
  apply (setup_creates_once (loaded [] [HostSearchSetting (Some 0%nat)] ∅)).
  apply loaded_tidy; reflexivity.
Defined.

(** ** Loading the settings *)

(** C8: loading merges the persisted record over the default: a key of
    the record keeps the record's value, any other key has the
    default's; so with no record at all, or with a record that has no
    [filters] field, the settings hold the empty filter list. *)
Theorem loadSettings_defaults (data : option (gmap string jsval)) :
  (∀ m k v, data = Some m → m !! k = Some v → loadSettings data !! k = Some v)
  ∧ (∀ k, (∀ m, data = Some m → m !! k = None) →
          loadSettings data !! k = DEFAULT_SETTINGS !! k)
  ∧ ((data = None ∨ ∃ m, data = Some m ∧ m !! "filters"%string = None) →
     loadSettings data !! "filters"%string = Some (JArr [])
     ∧ filters_of (loadSettings data) = Some []).
Proof.
  split; [|split].
  - intros m k v -> Hk. simpl. by apply lookup_union_Some_l.
  - intros k Hk. destruct data as [m|]; simpl; [|done].
    apply lookup_union_r. by apply Hk.
  - intros Hdata.
    assert (loadSettings data !! "filters"%string = Some (JArr [])) as E.
    { destruct Hdata as [-> | (m & -> & Hm)]; simpl.
      - done.
      - by rewrite lookup_union_r. }
    split; [done|]. unfold filters_of. by rewrite E.
Qed.

Lemma loadSettings_defaults_witness :
  filters_of (loadSettings (Some {[ "theme"%string := JStr (u16 "dark") ]}))
  = Some [].
Proof.
  apply (loadSettings_defaults (Some {[ "theme"%string := JStr (u16 "dark") ]})).
  right. eexists. split; [reflexivity|]. vm_compute. reflexivity.
Defined.

(** * Further properties of the code *)

(** ** Splitting and joining *)

Section pieces.
Implicit Types (sep p s t a b : jsstr).

Lemma split_rounds_nonempty n sep s : split_rounds n sep s ≠ [].
Proof.
  destruct n; cbn [split_rounds]; destruct (indexOf sep s); done.
Qed.

Lemma join_cons_nonempty sep (x : jsstr) (l : list jsstr) :
  l ≠ [] → join sep (x :: l) = x ++ sep ++ join sep l.
Proof. by destruct l. Qed.

Lemma found_decompose sep s j :
  indexOf sep s = Some j → s = take j s ++ sep ++ drop (j + length sep) s.
Proof.
  intros [[r Hr]%startsWith_true _]%indexOf_Some.
  transitivity (take j s ++ drop j s); [by rewrite take_drop|]. f_equal.
  rewrite <- drop_drop, Hr. by rewrite drop_app_length.
Qed.

Lemma join_split_rounds n sep s : join sep (split_rounds n sep s) = s.
Proof.
  revert s. induction n as [|n IH]; intros s; cbn [split_rounds].
  - by destruct (indexOf sep s).
  - destruct (indexOf sep s) as [j|] eqn:E; [|done].
    rewrite join_cons_nonempty by apply split_rounds_nonempty.
    rewrite IH. symmetry. by apply found_decompose.
Qed.

(** A match inside a prefix of [s] is a match in [s]. *)
Lemma startsWith_take p s i j :
  startsWith p (drop i (take j s)) = true → startsWith p (drop i s) = true.
Proof.
  intros H. destruct (decide (i ≤ length (take j s))%nat) as [Hi|Hi].
  - apply startsWith_true in H as [r Hr]. apply startsWith_true.
    exists (r ++ drop j s).
    rewrite <- (take_drop j s) at 1. rewrite drop_app_le by done.
    by rewrite Hr, app_assoc.
  - rewrite drop_ge in H by lia. by destruct p.
Qed.

Lemma includes_take sep s j :
  sep ≠ [] → indexOf sep s = Some j → includes sep (take j s) = false.
Proof.
  intros Hsep [_ Hmin]%indexOf_Some. unfold includes.
  destruct (indexOf sep (take j s)) as [i|] eqn:E; [|done].
  pose proof (indexOf_bound _ _ _ E) as Hb.
  apply indexOf_Some in E as [E _].
  apply startsWith_take in E. rewrite Hmin in E; [done|].
  rewrite length_take in Hb. destruct sep; [done|]. simpl in Hb. lia.
Qed.

Lemma split_rounds_pieces n sep s :
  sep ≠ [] → (length s ≤ n)%nat →
  Forall (λ p, includes sep p = false) (split_rounds n sep s).
Proof.
  intros Hsep. revert s. induction n as [|n IH]; intros s Hn;
    cbn [split_rounds]; destruct (indexOf sep s) as [j|] eqn:E.
  - apply indexOf_bound in E. destruct sep; [done|]. simpl in *. lia.
  - constructor; [|done]. unfold includes. by rewrite E.
  - pose proof (indexOf_bound _ _ _ E) as Hb.
    constructor; [by apply includes_take|].
    apply IH. rewrite length_drop. destruct sep; [done|]. simpl in *. lia.
  - constructor; [|done]. unfold includes. by rewrite E.
Qed.

(** A text that holds [p] still holds it with more text around. *)
Lemma includes_around p a t b :
  includes p (a ++ t ++ b) = false → includes p t = false.
Proof.
  intros H. unfold includes. destruct (indexOf p t) as [i|] eqn:E; [|done].
  apply indexOf_Some in E as [E _].
  pose proof (includes_false p (a ++ t ++ b) (length a + i) H) as Hf.
  rewrite <- drop_drop, drop_app_length in Hf.
  assert (startsWith p (drop i (t ++ b)) = true) as Ht; [|congruence].
  destruct (decide (i ≤ length t)%nat).
  - apply startsWith_true in E as [r Hr]. apply startsWith_true.
    exists (r ++ b). by rewrite drop_app_le, Hr, app_assoc.
  - rewrite drop_ge in E by lia. by destruct p.
Qed.

Lemma trimStart_suffix s : ∃ a, s = a ++ trimStart s.
Proof.
  induction s as [|c s [a IH]]; simpl; [by exists []|].
  destruct (is_ws c); [|by exists []].
  exists (c :: a). simpl. by f_equal.
Qed.

Lemma trim_infix s : ∃ a b, s = a ++ trim s ++ b.
Proof.
  unfold trim, trimEnd.
  destruct (trimStart_suffix s) as [a Ha].
  destruct (trimStart_suffix (rev (trimStart s))) as [b Hb].
  exists a, (rev b). rewrite <- rev_app_distr, <- Hb, rev_involutive. done.
Qed.

Lemma includes_trim p s : includes p s = false → includes p (trim s) = false.
Proof.
  destruct (trim_infix s) as (a & b & E). rewrite E at 1.
  apply includes_around.
Qed.
End pieces.

(** X1: splitting loses nothing.  For every text, joining the pieces
    line 121 cuts it into with the separator of line 199 gives the text
    back. *)
Theorem join_split (v : jsstr) : combinedQuery (split delimiter v) = v.
Proof. unfold combinedQuery, split. apply join_split_rounds. Qed.

(** X2: whatever is in the native input, every entry reconciliation
    reads out of it is non-empty, free of leading and trailing white
    space, and holds no delimiter. *)
Theorem parseFilters_normal (v : jsstr) : Forall normal_term (parseFilters v).
Proof.
  unfold parseFilters. apply Forall_forall. intros f Hf.
  apply list_elem_of_In, filter_In in Hf as [Hf Hlen].
  apply in_map_iff in Hf as (p & <- & Hp).
  pose proof (split_rounds_pieces (length v) delimiter v delimiter_ne
                (Nat.le_refl _)) as Hall.
  rewrite Forall_forall in Hall.
  split; [by destruct (trim p)|]. split; [apply trim_idem|].
  apply includes_trim, Hall. by apply list_elem_of_In.
Qed.

(** X3: the change test of lines 96 and 126 is exact: the two JSON
    texts differ if and only if the two lists differ, for all strings,
    with quotes, backslashes, control characters or lone surrogates. *)
Theorem change_test_exact (a b : list jsstr) :
  (JSON_stringify a = JSON_stringify b ↔ a = b)
  ∧ (stringify_differs a b = false ↔ a = b).
Proof.
  assert (JSON_stringify a = JSON_stringify b ↔ a = b) as H.
  { split; [apply JSON_stringify_inj | by intros ->]. }
  split; [done|]. unfold stringify_differs.
  rewrite bool_decide_eq_false. rewrite <- H. split.
  - intros Hnn. by destruct (decide (JSON_stringify a = JSON_stringify b)).
  - by intros ? ?.
Qed.

(** ** What the listener of the native input never does *)

(** X4: a run of [handleSearchInputChange] never writes to an input
    element and never raises an event, whether it returns or throws:
    the texts are untouched and all it adds to the effects is at most
    one write of the settings followed by one render. *)
Theorem listener_only_saves_and_renders (st : plugin) :
  let st' := state_of (handleSearchInputChange st) in
  values st' = values st
  ∧ (trace st' = trace st
     ∨ trace st' = Render :: SaveData (filters st') :: trace st).
Proof.
  unfold handleSearchInputChange.
  destruct (searchInput st) as [el|]; [|by split; [|left]].
  destruct (stringify_differs _ _); [|by split; [|left]].
  set (st1 := saveSettings _).
  destruct (renderPills_frame st1) as (Hf & _ & Hv & _ & _ & _ & _ & _ & _ & Ht).
  split; [by rewrite Hv|]. right. by rewrite Ht, Hf.
Qed.

(** ** The list follows the native text *)

Section binding.
Implicit Types (st : plugin) (el : element).

Lemma bound_frame st st' :
  filters st' = filters st → values st' = values st →
  searchInput st' = searchInput st → bound st → bound st'.
Proof. unfold bound, value_of. intros -> -> ->. done. Qed.

Lemma bound_renderPills st : bound st → bound (state_of (renderPills st)).
Proof.
  destruct (renderPills_frame st) as (Hf & _ & Hv & Hs & _).
  by apply bound_frame.
Qed.

Lemma bound_reconcile st : bound (reconcile st).
Proof.
  intros el Hel. destruct (reconcile_frame st) as (Hv & Hs & _).
  rewrite Hs in Hel. rewrite (reconcile_filters st el) by done.
  unfold value_of. by rewrite Hv.
Qed.

Lemma bound_run_listeners n st : bound st → bound (run_listeners n st).
Proof.
  revert st. induction n as [|n IH]; intros st H; [done|].
  cbn [run_listeners]. apply IH, bound_reconcile.
Qed.

Lemma bound_updateSearchQuery st :
  listening st → bound (updateSearchQuery st).
Proof.
  intros Hl. destruct (searchInput st) as [el|] eqn:Hel.
  - rewrite (updateSearchQuery_attached _ el) by done.
    apply (bound_frame (reconcile (emit (DispatchInput el)
                         (set_value el (combinedQuery (filters st)) st))));
      [done..|]. apply bound_reconcile.
  - rewrite updateSearchQuery_detached by done. intros el. congruence.
Qed.

Lemma bound_initializeComponents st : bound (state_of (initializeComponents st)).
Proof.
  unfold initializeComponents.
  set (st1 := initializeMainInput _).
  apply bound_renderPills. clearbody st1.
  destruct (searchInput st1) as [el|] eqn:Hel; [|intros el; congruence].
  destruct (stringify_differs _ _) eqn:Hd.
  - intros el' Hel'. simpl in *. rewrite Hel in Hel'. by injection Hel' as <-.
  - intros el' Hel'. rewrite Hel in Hel'. injection Hel' as <-.
    destruct (decide (parseFilters (value_of st1 el) = filters st1)) as [E|E];
      [done|].
    apply stringify_differs_spec in E. congruence.
Qed.
End binding.

(** X5: setup leaves the list equal to what the text of the search
    input parses to, whatever list was persisted; over an empty search
    box the persisted filters are dropped. *)
Theorem setup_adopts_native_text (st : plugin) (el : element) :
  let st' := state_of (initializeComponents st) in
  searchInput st' = Some el →
  filters st' = parseFilters (value_of st' el)
  ∧ (value_of st' el = [] → filters st' = []).
Proof.
  intros st' Hel.
  assert (filters st' = parseFilters (value_of st' el)) as H
    by (by apply bound_initializeComponents).
  split; [done|]. intros Hv. by rewrite H, Hv.
Qed.

Lemma setup_adopts_native_text_witness :
  let st' :=
    state_of
      (initializeComponents
         (loaded [u16 "kept"] [HostSearchSetting (Some 0%nat)] ∅)) in
  filters st' = [] ∧ disk st' = [].
Proof.
  intros st'.
  assert (searchInput st' = Some (Native 0)) as Hel by (vm_compute; reflexivity).
  assert (value_of st' (Native 0) = []) as Hv by (vm_compute; reflexivity).
  split.
  - exact (proj2 (setup_adopts_native_text _ (Native 0) Hel) Hv).
  - vm_compute. reflexivity.
Defined.

(** X6: once set up, every operation keeps the list equal to the parse
    of the native text: committing a text, removing an entry, a fired
    edit, and typing into the search input. *)
Theorem binding_kept (st : plugin) :
  listening st → bound st →
  (∀ src, bound (state_of (handleNewFilter src st)))
  ∧ (∀ index, bound (state_of (removeFilter index st)))
  ∧ (∀ index value, bound (debouncedCallback index value st))
  ∧ (∀ el v, bound (userInput el v st)).
Proof.
  intros Hl Hb. split; [|split; [|split]].
  - intros src. unfold handleNewFilter.
    destruct (from_option Some (searchInput st) src) as [input|]; [|done].
    destruct (0 <? length (trim (value_of st input)))%nat; [|done].
    apply bound_renderPills, bound_updateSearchQuery.
    by apply (listening_frame st).
  - intros index. unfold removeFilter.
    apply bound_renderPills, bound_updateSearchQuery.
    by apply (listening_frame st).
  - intros index value. unfold debouncedCallback.
    destruct (_ && _); [|done].
    apply bound_updateSearchQuery. by apply (listening_frame st).
  - intros el v. unfold userInput.
    destruct (count_occ element_eq_dec (inputListeners st) el) as [|n] eqn:E.
    + simpl. intros el' Hel'. simpl in Hel'.
      assert (el ≠ el') as Hne.
      { intros ->. apply Hl in Hel'.
        apply list_elem_of_In, (count_occ_In element_eq_dec) in Hel'. lia. }
      unfold value_of. simpl. rewrite lookup_insert_ne by done.
      by apply Hb.
    + rewrite run_listeners_S. apply bound_reconcile.
Qed.

Lemma binding_kept_witness :
  bound (state_of (removeFilter 0 ready_ab)).
Proof.
  refine (proj1 (proj2 (binding_kept ready_ab _ _)) 0%Z).
  - intros el Hel. vm_compute in Hel. injection Hel as <-. vm_compute. left.
  - intros el Hel. vm_compute in Hel. injection Hel as <-.
    vm_compute. reflexivity.
Defined.

(** ** The store follows the list *)

Section store.
Implicit Types (st : plugin).

Lemma synced_renderPills st : synced st → synced (state_of (renderPills st)).
Proof.
  unfold synced. by destruct (renderPills_frame st) as (-> & -> & _).
Qed.
End store.

(** X7: every mutation is saved.  If the last payload given to
    [saveData] is the list before an operation, it is the list after it,
    for setup, commit, removal, a fired edit and a change of the native
    text; after a removal it is so in any case. *)
Theorem persisted_follows_list (st : plugin) :
  (∀ index, synced (state_of (removeFilter index st)))
  ∧ (synced st →
     synced (state_of (initializeComponents st))
     ∧ (∀ src, synced (state_of (handleNewFilter src st)))
     ∧ (∀ index value, synced (debouncedCallback index value st))
     ∧ (∀ el v, synced (userInput el v st))).
Proof.
  split.
  { intros index. unfold removeFilter.
    by apply synced_renderPills, updateSearchQuery_disk. }
  intros Hs. split; [|split; [|split]].
  - unfold initializeComponents. set (st1 := initializeMainInput _).
    apply synced_renderPills.
    assert (synced st1) as H1.
    { subst st1. unfold synced, initializeMainInput, registerSearchHandlers,
        registerInputHandler.
      destruct (secondaryInput _); simpl;
        unfold createSecondaryInput, createPillsContainer;
        destruct (queryControls (doc st)); simpl; try done;
        destruct (isConnected st); simpl;
        repeat match goal with
               | |- context [match ?x with _ => _ end] => destruct x; simpl
               end; done. }
    clearbody st1. destruct (searchInput st1); [|done].
    by destruct (stringify_differs _ _).
  - intros src. unfold handleNewFilter.
    destruct (from_option Some (searchInput st) src) as [input|]; [|done].
    destruct (0 <? length (trim (value_of st input)))%nat; [|done].
    by apply synced_renderPills, updateSearchQuery_disk.
  - intros index value. unfold debouncedCallback.
    destruct (_ && _); [|done]. by apply updateSearchQuery_disk.
  - intros el v. unfold userInput.
    generalize (count_occ element_eq_dec (inputListeners st) el).
    assert (synced (set_value el v st)) as H by done.
    revert H. generalize (set_value el v st). intros st1 H n. revert st1 H.
    induction n as [|n IH]; intros st1 H; [done|].
    cbn [run_listeners]. fold (reconcile st1). by apply IH, reconcile_disk.
Qed.

Lemma persisted_follows_list_witness :
  synced (state_of (handleNewFilter (Some (Created 1))
                      (set_value (Created 1) (u16 "c") ready_ab))).
Proof.
  refine (proj1 (proj2 (proj2 (persisted_follows_list
                                 (set_value (Created 1) (u16 "c") ready_ab)) _))
            (Some (Created 1))).
  vm_compute. reflexivity.
Defined.

(** ** Setup over a panel that has the search setting *)

Section found.
Implicit Types (st : plugin).

Lemma createPillsContainer_connected st :
  queryControls (doc st) ≠ None →
  ∃ c, filtersContainer (createPillsContainer st) = Some c
       ∧ PillsContainer c ∈ doc (createPillsContainer st).
Proof.
  intros Hq. unfold createPillsContainer.
  destruct (queryControls (doc st)) as [i|]; [|done].
  destruct (isConnected st) eqn:Hc.
  - unfold isConnected in Hc. destruct (filtersContainer st) as [c|]; [|done].
    exists c. split; [done|]. by apply bool_decide_eq_true in Hc.
  - exists (next_id st). split; [done|]. simpl. apply insertAfter_elem.
Qed.

Lemma createSecondaryInput_keeps st :
  filtersContainer (createSecondaryInput st) = filtersContainer st
  ∧ ∀ n, n ∈ doc st → n ∈ doc (createSecondaryInput st).
Proof.
  unfold createSecondaryInput.
  destruct (queryControls (doc st)) as [i|]; [|done].
  destruct (existingSecondaryInput st); [done|].
  split; [done|]. intros n Hn. simpl. by apply insertAfter_keeps.
Qed.

Lemma createSecondaryInput_count st :
  existingSecondaryInput st = true →
  doc (createSecondaryInput st) = doc st.
Proof.
  intros H. unfold createSecondaryInput.
  destruct (queryControls (doc st)); [|done]. by rewrite H.
Qed.

Lemma createPillsContainer_secondary st :
  count_secondary (doc (createPillsContainer st)) = count_secondary (doc st).
Proof.
  unfold createPillsContainer.
  destruct (queryControls (doc st)); [|done].
  destruct (isConnected st); [done|]. simpl.
  rewrite count_secondary_insertAfter. simpl. lia.
Qed.
End found.

(** X8: when the host's search setting is in the document, setup
    returns without an exception for every persisted list, and leaves a
    pills container that is attached to the document and holds exactly
    one pill per filter, in order. *)
Theorem setup_returns_when_found (st : plugin) :
  queryControls (doc st) ≠ None →
  ∃ st' c, initializeComponents st = Returned st'
    ∧ filtersContainer st' = Some c
    ∧ PillsContainer c ∈ doc st'
    ∧ pills_of st' c = pills_from 0 (filters st').
Proof.
  intros Hq.
  destruct (createPillsContainer_connected st Hq) as (c & Hc & Hin).
  destruct (createSecondaryInput_keeps (createPillsContainer st)) as [Hc2 Hin2].
  destruct (initializeComponents_frame st) as (Hd & Hf & _).
  rewrite Hc2, Hc in Hf.
  assert (∃ st', initializeComponents st = Returned st'
                 ∧ pills_of st' c = pills_from 0 (filters st')) as (st' & Hr & Hp).
  { unfold initializeComponents.
    set (st2 := match searchInput _ with Some _ => _ | None => _ end).
    assert (filtersContainer st2 = Some c) as Hc3.
    { rewrite <- Hf. unfold initializeComponents. fold st2.
      by destruct (renderPills_frame st2) as (_ & _ & _ & _ & _ & -> & _). }
    rewrite (renderPills_container st2 c) by done.
    eexists. split; [done|]. unfold pills_of. simpl.
    by rewrite lookup_insert_eq. }
  exists st', c. rewrite Hr in Hd, Hf. simpl in Hd, Hf.
  split; [done|]. split; [done|]. split; [|done].
  rewrite Hd. by apply Hin2.
Qed.

Lemma setup_returns_when_found_witness :
  ∃ st' c,
    initializeComponents
      (loaded [u16 "a"; u16 "b"] [HostNode None; HostSearchSetting None] ∅)
    = Returned st'
    ∧ filtersContainer st' = Some c
    ∧ PillsContainer c ∈ doc st'
    ∧ pills_of st' c = pills_from 0 (filters st').
Proof.
  apply (setup_returns_when_found
           (loaded [u16 "a"; u16 "b"] [HostNode None; HostSearchSetting None] ∅)).
  intros H. vm_compute in H. discriminate H.
Defined.

(** X9: the secondary input is made at most once in the life of the
    plugin: once the flag is set, no setup adds a secondary input to the
    document, not even to a panel the host has rebuilt without one. *)
Theorem secondary_input_made_once (st : plugin) :
  existingSecondaryInput st = true →
  let st' := state_of (initializeComponents st) in
  count_secondary (doc st') = count_secondary (doc st)
  ∧ existingSecondaryInput st' = true.
Proof.
  intros Hflag st'. subst st'.
  destruct (initializeComponents_frame st) as (-> & _ & -> & _).
  destruct (createPillsContainer_frame st) as (_ & Hf).
  rewrite createSecondaryInput_count by (by rewrite Hf).
  split; [apply createPillsContainer_secondary|].
  apply createSecondaryInput_flag. by rewrite Hf.
Qed.

Lemma secondary_input_made_once_witness :
  let st := set_doc [HostSearchSetting (Some 1%nat)] ready in
  count_secondary (doc (state_of (initializeComponents st))) = 0%nat.
Proof.
  intros st.
  assert (existingSecondaryInput st = true) as H by (vm_compute; reflexivity).
  etrans; [exact (proj1 (secondary_input_made_once st H))|].
  vm_compute. reflexivity.
Defined.

(** ** Rendering *)

Lemma pills_from_lookup (fs : list jsstr) (n k : nat) :
  pills_from n fs !! k
  = (λ f, {| pill_index := n + k; pill_value := f |}) <$> fs !! k.
Proof.
  revert n k. induction fs as [|f fs IH]; intros n k; [done|].
  destruct k as [|k]; simpl.
  - by rewrite Nat.add_0_r.
  - rewrite IH. by replace (S n + k)%nat with (n + S k)%nat by lia.
Qed.

(** X10: a render into an existing container replaces its children by
    one pill per filter: the pill at position k shows entry k of the
    list and is wired to index k, and there is none past the end of the
    list.  Nothing but the container's children and the effects
    changes. *)
Theorem render_one_pill_per_filter (st : plugin) (c : nat) :
  filtersContainer st = Some c →
  ∃ st', renderPills st = Returned st'
    ∧ length (pills_of st' c) = length (filters st)
    ∧ (∀ k, pills_of st' c !! k
            = (λ f, {| pill_index := k; pill_value := f |}) <$> filters st !! k)
    ∧ filters st' = filters st ∧ disk st' = disk st ∧ values st' = values st.
Proof.
  intros Hc. rewrite (renderPills_container st c) by done.
  eexists. split; [done|].
  assert (pills_of (emit Render (set_pills c (pills_from 0 (filters st)) st)) c
          = pills_from 0 (filters st)) as ->.
  { unfold pills_of. simpl. by rewrite lookup_insert_eq. }
  split; [|split; [|done]].
  - generalize 0%nat. induction (filters st) as [|f fs IH]; intros n; [done|].
    simpl. by rewrite IH.
  - intros k. by rewrite pills_from_lookup.
Qed.

Lemma render_one_pill_per_filter_witness :
  ∃ st', renderPills ready_abc = Returned st'
    ∧ pills_of st' 0 !! 2%nat = Some {| pill_index := 2; pill_value := u16 "c" |}.
Proof.
  assert (filtersContainer ready_abc = Some 0%nat) as Hc
    by (vm_compute; reflexivity).
  destruct (render_one_pill_per_filter ready_abc 0 Hc)
    as (st' & Hr & _ & Hk & _).
  exists st'. split; [exact Hr|].
  etrans; [exact (Hk 2%nat)|]. vm_compute. reflexivity.
Defined.

(** ** Exceptions inside the listener *)

(** X11: without a pills container, a change of the native text to a
    different, non-empty list is adopted and persisted before line 145
    throws; nothing is rolled back, and the event dispatcher reports the
    exception instead of passing it on. *)
Theorem listener_throws_after_saving (st : plugin) (el : element) :
  searchInput st = Some el → filtersContainer st = None →
  let parsed := parseFilters (value_of st el) in
  parsed ≠ filters st → parsed ≠ [] →
  ∃ st', handleSearchInputChange st = Threw st'
    ∧ filters st' = parsed ∧ disk st' = parsed
    ∧ trace (reconcile st)
      = Reported :: Render :: SaveData parsed :: trace st.
Proof.
  intros Hel Hc parsed Hne Hnil.
  assert (handleSearchInputChange st
          = Threw (emit Render (saveSettings (set_filters parsed st)))) as E.
  { rewrite (handleSearchInputChange_differs _ el) by done.
    rewrite renderPills_undefined by done. fold parsed.
    by rewrite decide_False. }
  eexists. split; [exact E|]. unfold reconcile. rewrite E. done.
Qed.

Lemma listener_throws_after_saving_witness :
  let st :=
    set_value (Native 0) (u16 "a")
      (state_of (initializeComponents (loaded [] [HostNode (Some 0%nat)] ∅))) in
  ∃ st', handleSearchInputChange st = Threw st' ∧ filters st' = [u16 "a"].
Proof.
  intros st.
  assert (searchInput st = Some (Native 0)) as Hel by (vm_compute; reflexivity).
  assert (filtersContainer st = None) as Hc by (vm_compute; reflexivity).
  assert (parseFilters (value_of st (Native 0)) ≠ filters st) as Hne.
  { vm_compute. discriminate. }
  assert (parseFilters (value_of st (Native 0)) ≠ []) as Hnil.
  { vm_compute. discriminate. }
  destruct (listener_throws_after_saving st (Native 0) Hel Hc Hne Hnil)
    as (st' & Hr & Hf & _).
  exists st'. split; [exact Hr|].
  etrans; [exact Hf|]. vm_compute. reflexivity.
Defined.

(** ** Listeners stacked by repeated setups *)

Section stacked.
Implicit Types (st : plugin) (src el : element).

Lemma run_listeners_values n st : values (run_listeners n st) = values st.
Proof.
  revert st. induction n as [|n IH]; intros st; [done|].
  cbn [run_listeners]. fold (reconcile st). rewrite IH.
  by destruct (reconcile_frame st) as (-> & _).
Qed.

Lemma updateSearchQuery_other st src :
  searchInput st ≠ Some src →
  value_of (updateSearchQuery st) src = value_of st src.
Proof.
  intros Hne. unfold updateSearchQuery.
  destruct (searchInput st) as [el|]; [|done].
  unfold value_of, dispatchInput. simpl. rewrite run_listeners_values.
  simpl. rewrite lookup_insert_ne; [done|]. congruence.
Qed.

Lemma handleNewFilter_clears st src :
  searchInput st ≠ Some src →
  trim (value_of (report (handleNewFilter (Some src) st)) src) = [].
Proof.
  intros Hne. unfold handleNewFilter. simpl.
  destruct (0 <? length (trim (value_of st src)))%nat eqn:Ht.
  - set (stA := saveSettings _).
    destruct (report_frame (renderPills (updateSearchQuery stA)))
      as (_ & _ & Hv & _).
    destruct (renderPills_frame (updateSearchQuery stA)) as (_ & _ & Hv' & _).
    unfold value_of. rewrite Hv, Hv'.
    fold (value_of (updateSearchQuery stA) src).
    rewrite updateSearchQuery_other by done.
    subst stA. unfold value_of. simpl. by rewrite lookup_insert_eq.
  - simpl. apply Nat.ltb_ge in Ht. destruct (trim _); [done|simpl in Ht; lia].
Qed.

Lemma handleNewFilter_searchInput st (src : option element) :
  searchInput (report (handleNewFilter src st)) = searchInput st.
Proof.
  unfold handleNewFilter.
  destruct (from_option Some (searchInput st) src) as [input|]; [|done].
  destruct (0 <? length _)%nat; [|done].
  set (stA := saveSettings _).
  destruct (report_frame (renderPills (updateSearchQuery stA)))
    as (_ & _ & _ & -> & _).
  destruct (renderPills_frame (updateSearchQuery stA)) as (_ & _ & _ & -> & _).
  by destruct (updateSearchQuery_frame stA) as (_ & -> & _).
Qed.

Lemma handleNewFilter_blank st src :
  trim (value_of st src) = [] → handleNewFilter (Some src) st = Returned st.
Proof. intros H. unfold handleNewFilter. simpl. by rewrite H. Qed.

Lemma run_keydown_commit n st src :
  searchInput st ≠ Some src →
  run_keydown (S n) src ctrlEnter st = report (handleNewFilter (Some src) st).
Proof.
  intros Hne. revert st Hne. induction n as [|n IH]; intros st Hne; [done|].
  change (run_keydown (S (S n)) src ctrlEnter st)
    with (run_keydown (S n) src ctrlEnter (report (handleNewFilter (Some src) st))).
  rewrite IH by (by rewrite handleNewFilter_searchInput).
  by rewrite handleNewFilter_blank by (by apply handleNewFilter_clears).
Qed.

Lemma reconcile_settled st :
  handleSearchInputChange (reconcile st) = Returned (reconcile st).
Proof.
  destruct (reconcile_frame st) as (Hv & Hs & _).
  destruct (searchInput st) as [el|] eqn:Hel.
  - apply (handleSearchInputChange_same _ el); [done|].
    rewrite (reconcile_filters st el) by done. unfold value_of. by rewrite Hv.
  - unfold handleSearchInputChange. by rewrite Hs.
Qed.

Lemma run_keydown_ignored n st src (e : keyEvent) :
  String.eqb (key e) "Enter" && ctrlKey e && negb (isComposing e) = false →
  run_keydown n src e st = st.
Proof.
  intros He. induction n as [|n IH]; [done|].
  cbn [run_keydown]. unfold keydownListener. by rewrite He.
Qed.
End stacked.

(** X12: every setup attaches one more keydown listener to the
    secondary input, yet Ctrl+Enter commits its text once: the first
    listener clears the field and the others find it blank.  Any other
    key, Enter without Ctrl, and Enter during composition change
    nothing. *)
Theorem ctrl_enter_commits_once (st : plugin) (src : element) :
  searchInput st ≠ Some src → src ∈ keydownListeners st →
  dispatchKeydown src ctrlEnter st = report (handleNewFilter (Some src) st)
  ∧ trim (value_of (dispatchKeydown src ctrlEnter st) src) = []
  ∧ (∀ e : keyEvent,
       key e ≠ "Enter"%string ∨ ctrlKey e = false ∨ isComposing e = true →
       dispatchKeydown src e st = st).
Proof.
  intros Hne Hin.
  assert (dispatchKeydown src ctrlEnter st
          = report (handleNewFilter (Some src) st)) as E.
  { unfold dispatchKeydown.
    apply list_elem_of_In, (count_occ_In element_eq_dec) in Hin.
    destruct (count_occ element_eq_dec (keydownListeners st) src); [lia|].
    by apply run_keydown_commit. }
  split; [done|]. split.
  - rewrite E. by apply handleNewFilter_clears.
  - intros e He. unfold dispatchKeydown. apply run_keydown_ignored.
    destruct He as [He|[He|He]].
    + apply String.eqb_neq in He. by rewrite He.
    + rewrite He. by rewrite andb_false_r.
    + rewrite He. by rewrite andb_false_r.
Qed.

Lemma ctrl_enter_commits_once_witness :
  let st :=
    set_value (Created 1) (u16 " b ")
      (state_of (initializeComponents (state_of (initializeComponents ready_a)))) in
  keydownListeners st = [Created 1; Created 1; Created 1]
  ∧ filters (dispatchKeydown (Created 1) ctrlEnter st) = [u16 "a"; u16 "b"].
Proof.
  intros st. split; [vm_compute; reflexivity|].
  assert (searchInput st ≠ Some (Created 1)) as Hne.
  { vm_compute. discriminate. }
  assert (Created 1 ∈ keydownListeners st) as Hin.
  { vm_compute. left. }
  rewrite (proj1 (ctrl_enter_commits_once st (Created 1) Hne Hin)).
  vm_compute. reflexivity.
Defined.

(** X13: every setup that finds the search input attaches one more
    'input' listener to it, yet an input event acts as a single run of
    [handleSearchInputChange]: a second run finds the list already equal
    to the parse of the text. *)
Theorem stacked_listeners_act_once (st : plugin) (el : element) :
  (querySearchInput (doc (createSecondaryInput (createPillsContainer st)))
   = Some el →
   inputListeners (state_of (initializeComponents st)) = el :: inputListeners st)
  ∧ (el ∈ inputListeners st →
     dispatchInput el st = reconcile (emit (DispatchInput el) st)
     ∧ handleSearchInputChange (dispatchInput el st)
       = Returned (dispatchInput el st)).
Proof.
  split.
  - intros Hq. destruct (initializeComponents_frame st) as (_ & _ & _ & _ & ->).
    by rewrite Hq.
  - intros Hin. rewrite dispatchInput_listening by done. split; [done|].
    apply reconcile_settled.
Qed.

Lemma stacked_listeners_act_once_witness :
  let st := state_of (initializeComponents ready_ab) in
  inputListeners st = [Native 0; Native 0]
  ∧ dispatchInput (Native 0) st = reconcile (emit (DispatchInput (Native 0)) st).
Proof.
  intros st. split; [vm_compute; reflexivity|].
  refine (proj1 (proj2 (stacked_listeners_act_once st (Native 0)) _)).
  vm_compute. left.
Defined.

(** ** Operations on well-behaved terms *)

Lemma edit_fires_quietly_witness :
  let st' := debouncedCallback 1 (u16 " c ") ready_ab in
  filters st' = [u16 "a"; u16 "c"]
  ∧ trace st'
    = ScheduleChange (Native 0) :: DispatchInput (Native 0)
        :: SaveData [u16 "a"; u16 "c"] :: trace ready_ab.
Proof.
  intros st'.
  assert (listening ready_ab) as Hl.
  { intros el Hel. vm_compute in Hel. injection Hel as <-. vm_compute. left. }
  assert (searchInput ready_ab = Some (Native 0)) as Hs
    by (vm_compute; reflexivity).
  assert (1 < length (filters ready_ab))%nat as Hi by (vm_compute; lia).
  assert (parseFilters (combinedQuery (<[1%nat := trim (u16 " c ")]> (filters ready_ab)))
          = <[1%nat := trim (u16 " c ")]> (filters ready_ab)) as Hrt
    by (vm_compute; reflexivity).
  destruct (edit_fires_quietly ready_ab 1 (u16 " c ") (Native 0) Hl Hs Hi Hrt)
    as (Hf & _ & _ & _ & Ht).
  change (debouncedCallback (Z.of_nat 1) (u16 " c ") ready_ab) with st' in Hf, Ht.
  split.
  - etrans; [exact Hf|]. vm_compute. reflexivity.
  - etrans; [exact Ht|]. vm_compute. reflexivity.
Defined.

(** X15: committing a term to a list of non-empty, trimmed, separable
    entries, the new one included, costs one write of the settings, one
    input event and one render; the list ends as the old list followed
    by the trimmed term, and the field the term came from is empty. *)
Theorem commit_separable_term (st : plugin) (src el : element) (c : nat) :
  listening st → searchInput st = Some el → filtersContainer st = Some c →
  src ≠ el →
  let t := trim (value_of st src) in
  let L := filters st ++ [t] in
  t ≠ [] → Forall plain_term (filters st) →
  Forall (λ e, separable e = true) L →
  ∃ st', handleNewFilter (Some src) st = Returned st'
    ∧ filters st' = L ∧ disk st' = L
    ∧ value_of st' el = combinedQuery L
    ∧ value_of st' src = []
    ∧ pills_of st' c = pills_from 0 L
    ∧ trace st'
      = Render :: ScheduleChange el :: DispatchInput el :: SaveData L
          :: trace st.
Proof.
  intros Hl Hel Hc Hne t L Ht Hp Hs.
  assert (Forall plain_term L) as HpL.
  { apply Forall_app. split; [done|]. constructor; [|done]. by apply trim_plain. }
  set (stA := saveSettings (set_value src [] (set_filters L st))).
  assert (handleNewFilter (Some src) st = renderPills (updateSearchQuery stA)) as ->.
  { unfold handleNewFilter. simpl. fold t. by destruct t. }
  rewrite (updateSearchQuery_stable stA el);
    [|done|by apply (listening_frame st)|by apply parse_combined].
  rewrite (renderPills_container _ c) by done.
  eexists. split; [done|]. simpl.
  repeat split.
  - unfold value_of. simpl. by rewrite lookup_insert_eq.
  - unfold value_of. simpl.
    rewrite lookup_insert_ne by done. by rewrite lookup_insert_eq.
  - unfold pills_of. simpl. by rewrite lookup_insert_eq.
Qed.

Lemma commit_separable_term_witness :
  let st := set_value (Created 1) (u16 " b ") ready_a in
  ∃ st', handleNewFilter (Some (Created 1)) st = Returned st'
    ∧ filters st' = [u16 "a"; u16 "b"]
    ∧ trace st'
      = Render :: ScheduleChange (Native 0) :: DispatchInput (Native 0)
          :: SaveData [u16 "a"; u16 "b"] :: trace st.
Proof.
  intros st.
  assert (listening st) as Hl.
  { intros el Hel. vm_compute in Hel. injection Hel as <-. vm_compute. left. }
  assert (searchInput st = Some (Native 0)) as Hs by (vm_compute; reflexivity).
  assert (filtersContainer st = Some 0%nat) as Hc by (vm_compute; reflexivity).
  assert (Created 1 ≠ Native 0) as Hne by discriminate.
  assert (trim (value_of st (Created 1)) ≠ []) as Ht.
  { vm_compute. discriminate. }
  assert (Forall plain_term (filters st)) as Hp.
  { assert (filters st = [u16 "a"]) as -> by (vm_compute; reflexivity).
    repeat constructor; done. }
  assert (Forall (λ e, separable e = true)
            (filters st ++ [trim (value_of st (Created 1))])) as Hsep.
  { assert (filters st ++ [trim (value_of st (Created 1))] = [u16 "a"; u16 "b"])
      as -> by (vm_compute; reflexivity).
    repeat constructor. }
  destruct (commit_separable_term st (Created 1) (Native 0) 0%nat
              Hl Hs Hc Hne Ht Hp Hsep)
    as (st' & Hr & Hf & _ & _ & _ & _ & Htr).
  exists st'. split; [exact Hr|]. split.
  - etrans; [exact Hf|]. vm_compute. reflexivity.
  - etrans; [exact Htr|]. vm_compute. reflexivity.
Defined.

(** ** Settings written and read back *)

Lemma mapM_as_string (fs : list jsstr) : mapM as_string (JStr <$> fs) = Some fs.
Proof. by apply mapM_fmap_Some. Qed.

(** X16: the merge of line 224 keeps a stored [filters] field as it
    is.  A stored array of strings is read back as that list, beside
    whatever other keys the record has; a field of another shape is not
    replaced by the default, and the settings then hold no list of
    strings. *)
Theorem loadSettings_keeps_filters (m : gmap string jsval) :
  (∀ fs : list jsstr,
     filters_of (loadSettings (Some (<["filters"%string := JArr (JStr <$> fs)]> m)))
     = Some fs)
  ∧ (∀ v, m !! "filters"%string = Some v →
          (∀ items, v ≠ JArr items) →
          filters_of (loadSettings (Some m)) = None)
  ∧ (∀ k, k ≠ "filters"%string → loadSettings (Some m) !! k = m !! k).
Proof.
  split; [|split].
  - intros fs. unfold filters_of, loadSettings.
    rewrite (lookup_union_Some_l _ _ _ (JArr (JStr <$> fs)))
      by apply lookup_insert_eq.
    apply mapM_as_string.
  - intros v Hv Hshape. unfold filters_of, loadSettings.
    rewrite (lookup_union_Some_l _ _ _ v) by done.
    destruct v; try done. by destruct (Hshape items).
  - intros k Hk. unfold loadSettings.
    destruct (m !! k) as [v|] eqn:E.
    + by apply lookup_union_Some_l.
    + rewrite lookup_union_r by done. unfold DEFAULT_SETTINGS.
      by rewrite lookup_singleton_ne.
Qed.

Lemma loadSettings_keeps_filters_witness :
  filters_of (loadSettings (Some {[ "filters"%string := JNull ]})) = None.
Proof.
  refine (proj1 (proj2 (loadSettings_keeps_filters {[ "filters"%string := JNull ]}))
            JNull _ _).
  - vm_compute. reflexivity.
  - intros items. discriminate.
Defined.

(** ** Any number of setups *)

Lemma initializeComponents_no_container_witness :
  initializeComponents (loaded [] [HostNode None] ∅)
  = Returned (emit Render (emit ConsoleLog (loaded [] [HostNode None] ∅))).
Proof.
  exact (initializeComponents_no_container [] [HostNode None] ∅ eq_refl eq_refl).
Defined.

(** X17: however often the view is activated, the document never holds
    two pills containers or two secondary inputs, and the state stays
    within the invariant setup relies on. *)
Theorem setup_any_number_of_times (st : plugin) (n : nat) :
  tidy st →
  let st' := Nat.iter n (λ s, state_of (initializeComponents s)) st in
  tidy st'
  ∧ (count_pills (doc st') ≤ 1)%nat ∧ (count_secondary (doc st') ≤ 1)%nat.
Proof.
  intros Ht st'.
  assert (tidy st') as H.
  { subst st'. induction n as [|n IH]; [done|].
    simpl. by apply tidy_initializeComponents. }
  split; [done|]. destruct H as (Hp & _ & Hs & _). done.
Qed.

Lemma setup_any_number_of_times_witness :
  let st' :=
    Nat.iter 5 (λ s, state_of (initializeComponents s))
      (loaded [] [HostSearchSetting (Some 0%nat)] ∅) in
  (count_pills (doc st') ≤ 1)%nat ∧ (count_secondary (doc st') ≤ 1)%nat.
Proof.
  refine (proj2 (setup_any_number_of_times
                   (loaded [] [HostSearchSetting (Some 0%nat)] ∅) 5 _)).
  apply loaded_tidy; reflexivity.
Defined.
